(** * The diff analyzer of the /doi skill (src/doi/analyzer/summarize.ts)

    A shallow embedding of the analyzer module: the path-pattern tables,
    the categorizer, the key-file ranker, the intent inferrer and the
    overview generator, followed by the properties the specification
    states about them.

    JavaScript values are modelled as the runtime has them:
    - a string is its sequence of UTF-16 code units ([JS.str]);
    - the line counts of a diff are non-negative integers ([N]); where the
      ranker multiplies them by fractional weights they become IEEE-754
      binary64 numbers ([float], the kernel's primitive floats), rounded
      as the runtime rounds them;
    - a [Map] is an association list in insertion order;
    - [Array.prototype.sort] is the stable sort the language prescribes. *)

From Stdlib Require Import ZArith NArith PArith List String Ascii Bool Lia.
From Stdlib Require Import Permutation Sorted DecimalString.
From Stdlib Require Import Floats.
Import ListNotations.

Set Implicit Arguments.
Local Open Scope N_scope.

(* ================================================================== *)
(** * The JavaScript runtime the analyzer relies on *)
(* ================================================================== *)

Module JS.

(** A UTF-16 code unit, and a string as a sequence of code units. *)
Definition char := N.
Definition str := list char.

(** A literal of the source text. *)
Definition lit (s : string) : str :=
  List.map N_of_ascii (list_ascii_of_string s).

(** [a === b] on strings. *)
Fixpoint str_eqb (a b : str) : bool :=
  match a, b with
  | [], [] => true
  | x :: a', y :: b' => N.eqb x y && str_eqb a' b'
  | _, _ => false
  end.

(** [`${n}`] for a non-negative integer [n]: its decimal digits (what the
    runtime prints for the integers it holds exactly, those below 2^53). *)
Definition ofN (n : N) : str := lit (NilEmpty.string_of_uint (N.to_uint n)).
Definition ofNat (n : nat) : str := ofN (N.of_nat n).

(** The binary64 number of a non-negative integer: the integer itself
    up to 2^53, the nearest number beyond. *)
Definition Number (n : N) : float :=
  SF2Prim (binary_normalize prec emax (Z.of_N n) 0 false).

(** [a.slice(0, e)] for an integer [e]: a negative [e] counts from the
    end of the array. *)
Definition slice0 {A} (a : list A) (e : Z) : list A :=
  let len := Z.of_nat (List.length a) in
  let final := if (e <? 0)%Z then Z.max (len + e) 0 else Z.min e len in
  firstn (Z.to_nat final) a.

(** [a.slice(1)]. *)
Definition slice1 {A} (a : list A) : list A := List.tl a.

(** [a.join(sep)]. *)
Fixpoint join (sep : str) (a : list str) : str :=
  match a with
  | [] => []
  | [s] => s
  | s :: rest => s ++ sep ++ join sep rest
  end.

(** [s.split(/[...]/)] for a class of single code units [delim]. *)
Fixpoint split (delim : char -> bool) (s : str) : list str :=
  match s with
  | [] => [[]]
  | c :: s' =>
      if delim c then [] :: split delim s'
      else match split delim s' with
           | seg :: rest => (c :: seg) :: rest
           | [] => [[c]]
           end
  end.

(** [s.replace(/[...]/g, by)] for a class of single code units. *)
Definition replaceAll (cls : char -> bool) (by_ : str) (s : str) : str :=
  List.flat_map (fun c => if cls c then by_ else [c]) s.

(** [s.toLowerCase()] for a string of ASCII characters. *)
Definition toLowerCaseASCII (s : str) : str :=
  List.map (fun c => if (65 <=? c) && (c <=? 90) then c + 32 else c) s.

(** [a.indexOf(x)] on an array of strings: [-1] when absent. *)
Fixpoint indexOf (a : list str) (x : str) : Z :=
  match a with
  | [] => (-1)%Z
  | y :: a' =>
      if str_eqb y x then 0%Z
      else let i := indexOf a' x in
           if (i <? 0)%Z then (-1)%Z else (i + 1)%Z
  end.

(** [a.includes(x)] on an array of strings. *)
Definition includes (a : list str) (x : str) : bool :=
  List.existsb (fun y => str_eqb y x) a.

(** [Array.prototype.sort(comparefn)]: the sort is stable, and decided by
    the sign of [comparefn(a, b)]; [before a b] says that sign is
    negative.  The stable order is reached by insertion from the right:
    an element stays in front of everything [comparefn] does not put
    strictly before it.  For a consistent comparator no other arrangement
    is sorted and stable ([sort_is_stable_sort] below). *)
Section Sort.
Variable A : Type.
Variable before : A -> A -> bool.

Fixpoint insert (x : A) (l : list A) : list A :=
  match l with
  | [] => [x]
  | y :: l' => if before y x then y :: insert x l' else x :: y :: l'
  end.

Fixpoint sort (l : list A) : list A :=
  match l with
  | [] => []
  | x :: l' => insert x (sort l')
  end.
End Sort.

(** A [Map] keyed by strings, iterated in insertion order. *)
Section MapOps.
Variable V : Type.
Definition Map := list (str * V).

Fixpoint has (m : Map) (k : str) : bool :=
  match m with
  | [] => false
  | (k', _) :: m' => str_eqb k' k || has m' k
  end.

Fixpoint get (m : Map) (k : str) : option V :=
  match m with
  | [] => None
  | (k', v) :: m' => if str_eqb k' k then Some v else get m' k
  end.

(** [m.set(k, v)]: a present key keeps its place, a new one goes last. *)
Fixpoint set (m : Map) (k : str) (v : V) : Map :=
  match m with
  | [] => [(k, v)]
  | (k', v') :: m' =>
      if str_eqb k' k then (k', v) :: m' else (k', v') :: set m' k v
  end.
End MapOps.

End JS.

(* ================================================================== *)
(** * Regular expressions *)
(* ================================================================== *)

Module Regex.
Import JS.

(** The fragment of the pattern language the module's literals use. *)
Inductive regex : Type :=
| Never                      (* matches nothing *)
| Eps                        (* the empty pattern *)
| Chr (c : char)             (* one code unit *)
| ChrI (c : char)            (* an ASCII letter under the [i] flag *)
| Dot                        (* [.]: anything but a line terminator *)
| OneOf (cs : list char)     (* a class [[...]] *)
| Seq (a b : regex)
| Alt (a b : regex)
| Star (a : regex)
| Eol.                       (* [$], without the [m] flag *)

Definition Opt (a : regex) : regex := Alt a Eps.
Definition Plus (a : regex) : regex := Seq a (Star a).

(** ASCII upper case of a code unit (the canonical form of the [i] flag
    for the letters the patterns spell out). *)
Definition upper (c : char) : char :=
  if (97 <=? c) && (c <=? 122) then c - 32 else c.

Definition lineTerminator (c : char) : bool :=
  (c =? 10) || (c =? 13) || (c =? 8232) || (c =? 8233).

(** A word of the pattern, letter by letter. *)
Fixpoint word (cs : str) : regex :=
  match cs with
  | [] => Eps
  | [c] => Chr c
  | c :: cs' => Seq (Chr c) (word cs')
  end.

Fixpoint wordI (cs : str) : regex :=
  match cs with
  | [] => Eps
  | [c] => ChrI c
  | c :: cs' => Seq (ChrI c) (wordI cs')
  end.

(** Can the pattern match the empty string here?  [atEnd] says whether
    the position is the end of the input. *)
Fixpoint nullable (atEnd : bool) (r : regex) : bool :=
  match r with
  | Never => false
  | Eps => true
  | Chr _ | ChrI _ | Dot | OneOf _ => false
  | Seq a b => nullable atEnd a && nullable atEnd b
  | Alt a b => nullable atEnd a || nullable atEnd b
  | Star _ => true
  | Eol => atEnd
  end.

(** What remains to be matched after the code unit [c]. *)
Fixpoint deriv (c : char) (r : regex) : regex :=
  match r with
  | Never | Eps | Eol => Never
  | Chr d => if c =? d then Eps else Never
  | ChrI d => if upper c =? upper d then Eps else Never
  | Dot => if lineTerminator c then Never else Eps
  | OneOf cs => if List.existsb (N.eqb c) cs then Eps else Never
  | Seq a b =>
      if nullable false a then Alt (Seq (deriv c a) b) (deriv c b)
      else Seq (deriv c a) b
  | Alt a b => Alt (deriv c a) (deriv c b)
  | Star a => Seq (deriv c a) (Star a)
  end.

(** Does the pattern match at the start of [s]? *)
Fixpoint matchHere (r : regex) (s : str) : bool :=
  match s with
  | [] => nullable true r
  | c :: s' => nullable false r || matchHere (deriv c r) s'
  end.

(** [r.test(s)]: does the pattern match somewhere in [s]? *)
Fixpoint test (r : regex) (s : str) : bool :=
  matchHere r s ||
  match s with
  | [] => false
  | _ :: s' => test r s'
  end.

End Regex.

(* ================================================================== *)
(** * Data model *)
(* ================================================================== *)

Import JS Regex.

(** The interfaces come from [../types]; types.ts is not part of the
    sources at hand, so each record below is modelled from the data model
    of the specification and the fields the analyzer reads. *)

(** Modelled from the spec: the [ChangedFile] interface of types.ts.
    [changeType] is the string the runtime holds; the declared union is
    ['added' | 'modified' | 'deleted' | 'renamed']. *)
Record ChangedFile : Type := {
  path : str;
  changeType : str;
  linesAdded : N;
  linesRemoved : N
}.

(** Modelled from the spec: the [ChangeCategory] union of types.ts, the
    seven category names, held as strings at run time. *)
Definition ChangeCategory := str.

(** Modelled from the spec: the [CategorizedChange] interface of types.ts. *)
Record CategorizedChange : Type := {
  category : ChangeCategory;
  description : str;
  files : list str
}.

(** Modelled from the spec: the [BranchCommit] interface of types.ts, of
    which the analyzer reads [message] only. *)
Record BranchCommit : Type := { message : str }.

(** Modelled from the spec: the [GitContext] interface of types.ts, of
    which the analyzer reads [currentBranch] only. *)
Record GitContext : Type := { currentBranch : str }.

Module DiffStats.
(** Modelled from the spec: the [DiffStats] interface of types.ts. *)
Record t : Type := { linesAdded : N; linesRemoved : N }.
End DiffStats.

Module GitDiff.
(** Modelled from the spec: the [GitDiff] interface of types.ts. *)
Record t : Type := {
  context : GitContext;
  commits : list BranchCommit;
  files : list ChangedFile;
  stats : DiffStats.t
}.
End GitDiff.

Module DiffSummary.
(** Modelled from the spec: the [DiffSummary] interface of types.ts. *)
Record t : Type := {
  overview : str;
  changes : list CategorizedChange;
  inferredIntent : str;
  keyFiles : list str;
  stats : DiffStats.t;
  filesChanged : list str
}.
End DiffSummary.

(* ================================================================== *)
(** * File pattern matchers *)
(* ================================================================== *)

Declare Scope regex_scope.
Delimit Scope regex_scope with re.
Notation "a >> b" := (Seq a b) (at level 41, right associativity) : regex_scope.
Notation "a |: b" := (Alt a b) (at level 42, right associativity) : regex_scope.
Local Open Scope regex_scope.

Definition W (s : string) : regex := word (lit s).
Definition WI (s : string) : regex := wordI (lit s).

Local Open Scope string_scope.
Local Open Scope list_scope.

(** The pattern lists of [FILE_PATTERNS]. *)
Definition configurationPatterns : list regex := [
  (* /\.config\.(js|ts|json|yaml|yml)$/ *)
  W ".config." >> (W "js" |: W "ts" |: W "json" |: W "yaml" |: W "yml") >> Eol;
  (* /package\.json$/ *)
  W "package.json" >> Eol;
  (* /tsconfig.*\.json$/ *)
  W "tsconfig" >> Star Dot >> W ".json" >> Eol;
  (* /\.env(\..+)?$/ *)
  W ".env" >> Opt (W "." >> Plus Dot) >> Eol;
  (* /webpack|rollup|vite|esbuild/i *)
  WI "webpack" |: WI "rollup" |: WI "vite" |: WI "esbuild";
  (* /docker|compose/i *)
  WI "docker" |: WI "compose";
  (* /\.github\// *)
  W ".github/";
  (* /Makefile$/ *)
  W "Makefile" >> Eol;
  (* /\.yml$/ *)
  W ".yml" >> Eol;
  (* /\.yaml$/ *)
  W ".yaml" >> Eol
].

Definition testingPatterns : list regex := [
  (* /\.(test|spec)\.(js|ts|jsx|tsx)$/ *)
  W "." >> (W "test" |: W "spec") >> W "." >>
    (W "js" |: W "ts" |: W "jsx" |: W "tsx") >> Eol;
  (* /__(tests|mocks)__\// *)
  W "__" >> (W "tests" |: W "mocks") >> W "__/";
  (* /\.test\./ *)
  W ".test.";
  (* /\.spec\./ *)
  W ".spec.";
  (* /test\// *)
  W "test/";
  (* /tests\// *)
  W "tests/";
  (* /jest\.config/ *)
  W "jest.config";
  (* /vitest\.config/ *)
  W "vitest.config"
].

Definition documentationPatterns : list regex := [
  (* /\.md$/ *)
  W ".md" >> Eol;
  (* /\.mdx$/ *)
  W ".mdx" >> Eol;
  (* /docs?\// *)
  W "doc" >> Opt (W "s") >> W "/";
  (* /README/i *)
  WI "README";
  (* /CHANGELOG/i *)
  WI "CHANGELOG";
  (* /LICENSE/i *)
  WI "LICENSE";
  (* /CONTRIBUTING/i *)
  WI "CONTRIBUTING"
].

(** [FILE_PATTERNS], in declaration order (the order [Object.entries]
    yields). *)
Definition FILE_PATTERNS : list (ChangeCategory * list regex) := [
  (lit "configuration", configurationPatterns);
  (lit "testing", testingPatterns);
  (lit "documentation", documentationPatterns);
  (lit "new-feature", []);   (* Determined by change type, not pattern *)
  (lit "modified-logic", []); (* Determined by change type, not pattern *)
  (lit "refactoring", []);    (* Determined by change pattern analysis *)
  (lit "deletion", [])        (* Determined by change type *)
].

(** The inner loop of [categorizeFileByPath]: does any pattern of the
    list match? *)
Definition matchesAny (patterns : list regex) (filePath : str) : bool :=
  List.existsb (fun pattern => test pattern filePath) patterns.

(** The outer loop, over a table: the first category, in table order, one
    of whose patterns matches. *)
Fixpoint firstCategory (table : list (ChangeCategory * list regex))
    (filePath : str) : option ChangeCategory :=
  match table with
  | [] => None
  | (category, patterns) :: rest =>
      if matchesAny patterns filePath then Some category
      else firstCategory rest filePath
  end.

(** The category of a file by its path; [None] is the source's [null]. *)
Definition categorizeFileByPath (filePath : str) : option ChangeCategory :=
  firstCategory FILE_PATTERNS filePath.

(* ================================================================== *)
(** * Change categorization *)
(* ================================================================== *)

(** [if (pathCategory)]: [null] and the empty string are falsy. *)
Definition truthy (v : option str) : bool :=
  match v with
  | Some (_ :: _) => true
  | _ => false
  end.

Definition categorizeChange (file : ChangedFile) : ChangeCategory :=
  (* First check path patterns *)
  let pathCategory := categorizeFileByPath (path file) in
  match (if truthy pathCategory then pathCategory else None) with
  | Some c => c
  | None =>
      (* Then check change type *)
      if str_eqb (changeType file) (lit "added") then lit "new-feature"
      else if str_eqb (changeType file) (lit "deleted") then lit "deletion"
      else if str_eqb (changeType file) (lit "renamed") then lit "refactoring"
      else lit "modified-logic"
  end.

(** [`...${fileCount > 1 ? 's' : ''}`]. *)
Definition plural (fileCount : nat) : str :=
  if (1 <? fileCount)%nat then lit "s" else lit "".

(** [files.some(f => f.changeType === 'added')]. *)
Definition someAdded (files : list ChangedFile) : bool :=
  List.existsb (fun f => str_eqb (changeType f) (lit "added")) files.

(** The text of the [default:] case of [generateCategoryDescription]. *)
Definition fallbackDescription (fileCount : nat) : str :=
  lit "Changed " ++ ofNat fileCount ++ lit " file" ++ plural fileCount.

(** A human-readable description for a category of changes.  The sums are
    integer sums: they are the runtime's as long as they stay below 2^53. *)
Definition generateCategoryDescription
    (category : ChangeCategory) (files : list ChangedFile) : str :=
  let fileCount := List.length files in
  let totalAdded := List.fold_left (fun sum f => sum + linesAdded f) files 0 in
  let totalRemoved := List.fold_left (fun sum f => sum + linesRemoved f) files 0 in
  if str_eqb category (lit "new-feature") then
    lit "Added " ++ ofNat fileCount ++ lit " new file" ++ plural fileCount
      ++ lit " (+" ++ ofN totalAdded ++ lit " lines)"
  else if str_eqb category (lit "modified-logic") then
    lit "Modified logic in " ++ ofNat fileCount ++ lit " file" ++ plural fileCount
      ++ lit " (+" ++ ofN totalAdded ++ lit "/-" ++ ofN totalRemoved ++ lit " lines)"
  else if str_eqb category (lit "refactoring") then
    lit "Refactored/renamed " ++ ofNat fileCount ++ lit " file" ++ plural fileCount
  else if str_eqb category (lit "deletion") then
    lit "Removed " ++ ofNat fileCount ++ lit " file" ++ plural fileCount
      ++ lit " (-" ++ ofN totalRemoved ++ lit " lines)"
  else if str_eqb category (lit "configuration") then
    lit "Updated configuration in " ++ ofNat fileCount ++ lit " file"
      ++ plural fileCount
  else if str_eqb category (lit "testing") then
    (if (1 <? fileCount)%nat then lit "Tests" else lit "Test") ++ lit " "
      ++ (if someAdded files then lit "added" else lit "modified")
      ++ lit " (+" ++ ofN totalAdded ++ lit "/-" ++ ofN totalRemoved ++ lit " lines)"
  else if str_eqb category (lit "documentation") then
    lit "Documentation "
      ++ (if someAdded files then lit "added" else lit "updated")
  else
    fallbackDescription fileCount.

(** The importance order of [categorizeChanges]. *)
Definition categoryOrder : list ChangeCategory := [
  lit "new-feature";
  lit "modified-logic";
  lit "refactoring";
  lit "deletion";
  lit "configuration";
  lit "testing";
  lit "documentation"
].

(** One round of the grouping loop. *)
Definition groupFile (grouped : Map (list ChangedFile)) (file : ChangedFile)
  : Map (list ChangedFile) :=
  let category := categorizeChange file in
  let grouped := if has grouped category then grouped else set grouped category [] in
  match get grouped category with
  | Some categoryFiles => set grouped category (categoryFiles ++ [file])
  | None => grouped
  end.

(** The comparator of the final sort is
    [categoryOrder.indexOf(a.category) - categoryOrder.indexOf(b.category)]. *)
Definition byImportance (a b : CategorizedChange) : bool :=
  (indexOf categoryOrder (category a) - indexOf categoryOrder (category b) <? 0)%Z.

(** The grouping loop: [grouped] once every file is in its group. *)
Definition groupFiles (files : list ChangedFile) : Map (list ChangedFile) :=
  List.fold_left groupFile files [].

(** Groups files by their change category and describes each group. *)
Definition categorizeChanges (files : list ChangedFile) : list CategorizedChange :=
  (* Group files by category *)
  let grouped := groupFiles files in
  (* Convert to CategorizedChange array with descriptions *)
  let changes :=
    List.map (fun '(category, categoryFiles) =>
                {| category := category;
                   description := generateCategoryDescription category categoryFiles;
                   files := List.map path categoryFiles |})
             grouped in
  (* Sort by importance *)
  sort byImportance changes.

(* ================================================================== *)
(** * Key file identification *)
(* ================================================================== *)

(** [/\.(ts|js|tsx|jsx|py|go|rs|java|cpp|c)$/] *)
Definition sourceFilePattern : regex :=
  W "." >> (W "ts" |: W "js" |: W "tsx" |: W "jsx" |: W "py" |: W "go"
            |: W "rs" |: W "java" |: W "cpp" |: W "c") >> Eol.

(** [/\.(test|spec)\./] *)
Definition testFilePattern : regex :=
  W "." >> (W "test" |: W "spec") >> W ".".

(** [categorizeFileByPath(p) === c]. *)
Definition isCategory (v : option ChangeCategory) (c : ChangeCategory) : bool :=
  match v with
  | Some x => str_eqb x c
  | None => false
  end.

Local Set Warnings "-inexact-float".

(** The score the ranker gives a file (the body of the [map] callback). *)
Definition fileScore (file : ChangedFile) : float :=
  let score := 0%float in
  (* Lines changed (primary factor) *)
  let score := (score + (Number (linesAdded file) + Number (linesRemoved file)))%float in
  (* Boost for source code files *)
  let score := if test sourceFilePattern (path file)
               then (score * 1.5)%float else score in
  (* Boost for new files *)
  let score := if str_eqb (changeType file) (lit "added")
               then (score * 1.3)%float else score in
  (* Reduce score for test files *)
  let score := if test testFilePattern (path file)
               then (score * 0.7)%float else score in
  (* Reduce score for config/docs *)
  let score := if isCategory (categorizeFileByPath (path file)) (lit "configuration")
               then (score * 0.5)%float else score in
  let score := if isCategory (categorizeFileByPath (path file)) (lit "documentation")
               then (score * 0.3)%float else score in
  score.

(** The comparator of the ranking sort is [b.score - a.score]. *)
Definition byScore (a b : ChangedFile * float) : bool :=
  (snd b - snd a <? 0)%float.

(** [scored], once sorted. *)
Definition rankedFiles (files : list ChangedFile) : list (ChangedFile * float) :=
  sort byScore (List.map (fun file => (file, fileScore file)) files).

(** [limit] is [None] when the caller leaves it out. *)
Definition identifyKeyFiles (files : list ChangedFile) (limit : option Z) : list str :=
  let limit := match limit with Some l => l | None => 5%Z end in
  List.map (fun s => path (fst s)) (slice0 (rankedFiles files) limit).

(* ================================================================== *)
(** * Intent inference *)
(* ================================================================== *)

(** The class [[\/\-_]]. *)
Definition delimiters : list char := lit "/-_".
Definition D : regex := OneOf delimiters.

Definition INTENT_PATTERNS : list (regex * str) := [
  (* /feat(ure)?[\/\-_]/i *)
  (WI "feat" >> Opt (WI "ure") >> D, lit "add new functionality");
  (* /fix[\/\-_]/i *)
  (WI "fix" >> D, lit "fix a bug or issue");
  (* /bug[\/\-_]/i *)
  (WI "bug" >> D, lit "address a bug");
  (* /refactor[\/\-_]/i *)
  (WI "refactor" >> D, lit "improve code structure");
  (* /perf(ormance)?[\/\-_]/i *)
  (WI "perf" >> Opt (WI "ormance") >> D, lit "improve performance");
  (* /docs?[\/\-_]/i *)
  (WI "doc" >> Opt (WI "s") >> D, lit "update documentation");
  (* /test[\/\-_]/i *)
  (WI "test" >> D, lit "add or improve tests");
  (* /chore[\/\-_]/i *)
  (WI "chore" >> D, lit "perform maintenance tasks");
  (* /hotfix[\/\-_]/i *)
  (WI "hotfix" >> D, lit "apply an urgent fix");
  (* /release[\/\-_]/i *)
  (WI "release" >> D, lit "prepare a release");
  (* /deps?[\/\-_]/i *)
  (WI "dep" >> Opt (WI "s") >> D, lit "update dependencies");
  (* /upgrade[\/\-_]/i *)
  (WI "upgrade" >> D, lit "upgrade dependencies or tools");
  (* /migration?[\/\-_]/i *)
  (WI "migratio" >> Opt (WI "n") >> D, lit "perform a data or code migration")
].

(** The loop over a table of intents: the first entry whose pattern
    matches the branch name. *)
Fixpoint firstIntent (table : list (regex * str)) (branchName : str)
  : option (regex * str) :=
  match table with
  | [] => None
  | (pattern, intent) :: rest =>
      if test pattern branchName then Some (pattern, intent)
      else firstIntent rest branchName
  end.

Definition inferIntent (diff : GitDiff.t) : str :=
  let branchName := currentBranch (GitDiff.context diff) in
  let commits := GitDiff.commits diff in
  (* First, check branch name patterns *)
  match firstIntent INTENT_PATTERNS branchName with
  | Some (_, intent) =>
      (* Extract the meaningful part after the prefix *)
      let parts := split (fun c => List.existsb (N.eqb c) delimiters) branchName in
      let description :=
        replaceAll (fun c => List.existsb (N.eqb c) (lit "-_")) (lit " ")
                   (join (lit " ") (slice1 parts)) in
      if (0 <? List.length description)%nat
      then intent ++ lit ": " ++ description
      else intent
  | None =>
      (* If no pattern matched, try to infer from commits *)
      match commits with
      | c :: older =>
          let firstCommit := List.last older c in (* Oldest first *)
          lit "Based on commits: " ++ message firstCommit
      | [] =>
          (* Fallback: describe based on change types *)
          let changes := categorizeChanges (GitDiff.files diff) in
          let categories := List.map category changes in
          if includes categories (lit "new-feature") then
            lit "Add new functionality to the codebase"
          else if includes categories (lit "deletion") then
            lit "Remove unused code or features"
          else if includes categories (lit "refactoring") then
            lit "Improve code structure without changing behavior"
          else if includes categories (lit "configuration") then
            lit "Update project configuration"
          else lit "Make changes to the codebase"
      end
  end.

(* ================================================================== *)
(** * Overview and summary generation *)
(* ================================================================== *)

Section Overview.

(** [String.prototype.toLowerCase] belongs to the runtime; the analyzer
    is parametric in it. *)
Variable toLowerCase : str -> str.

Definition generateOverview (diff : GitDiff.t) : str :=
  let stats := GitDiff.stats diff in
  let fileCount := List.length (GitDiff.files diff) in
  let intent := inferIntent diff in
  (* Start with a size descriptor *)
  let totalLines := DiffStats.linesAdded stats + DiffStats.linesRemoved stats in
  let sizeDescriptor :=
    if (totalLines <? 50)%N then lit "small"
    else if (totalLines <? 200)%N then lit "moderate"
    else if (totalLines <? 500)%N then lit "substantial"
    else lit "large" in
  lit "A " ++ sizeDescriptor ++ lit " change across " ++ ofNat fileCount
    ++ lit " file" ++ (if Nat.eqb fileCount 1 then lit "" else lit "s")
    ++ lit " to " ++ toLowerCase intent ++ lit ".".

Definition generateDiffSummary (diff : GitDiff.t) : DiffSummary.t :=
  {| DiffSummary.overview := generateOverview diff;
     DiffSummary.changes := categorizeChanges (GitDiff.files diff);
     DiffSummary.inferredIntent := inferIntent diff;
     DiffSummary.keyFiles := identifyKeyFiles (GitDiff.files diff) None;
     DiffSummary.stats := GitDiff.stats diff;
     DiffSummary.filesChanged := List.map path (GitDiff.files diff) |}.

End Overview.

(* ================================================================== *)
(** * Vocabulary of the properties *)
(* ================================================================== *)

(** Numbers as the IEEE-754 specification of the kernel describes them. *)
Module SF.
Local Open Scope Z_scope.

(** [x] is a number that is not negative: [+0], a positive finite
    number or [+Infinity]. *)
Definition nonneg (x : spec_float) : Prop :=
  match x with
  | S754_zero false | S754_infinity false | S754_finite false _ _ => True
  | _ => False
  end.

(** [x] is a non-zero number of sign [s]. *)
Definition signed (s : bool) (x : spec_float) : Prop :=
  match x with
  | S754_infinity s' | S754_finite s' _ _ => s' = s
  | _ => False
  end.

(** Class (zero, finite, infinite), exponent and mantissa: [SFcompare]
    orders numbers that are not negative as it orders these triples. *)
Definition key (x : spec_float) : Z * Z * Z :=
  match x with
  | S754_finite _ m e => (1, e, Z.pos m)
  | S754_infinity _ => (2, 0, 0)
  | _ => (0, 0, 0)
  end.

Definition key_lt (a b : Z * Z * Z) : Prop :=
  let '(c1, e1, m1) := a in
  let '(c2, e2, m2) := b in
  c1 < c2 \/ (c1 = c2 /\ (e1 < e2 \/ (e1 = e2 /\ m1 < m2))).

End SF.

(** Binary64 numbers. *)
Module Num.

(** [a] is [+0], a positive number or [+Infinity]: neither negative nor
    [NaN]. *)
Definition nonneg (a : float) : Prop := SF.nonneg (Prim2SF a).

Definition key (a : float) : Z * Z * Z := SF.key (Prim2SF a).

End Num.

(** Two elements are tied when the comparator of a sort puts neither
    before the other. *)
Definition tied (A : Type) (before : A -> A -> bool) (a b : A) : bool :=
  negb (before a b) && negb (before b a).

(** ** What a pattern matches *)

Definition isEmpty (s : str) : bool :=
  match s with [] => true | _ => false end.

(** [Matches atEnd r w]: the pattern [r] matches exactly the word [w];
    [atEnd] says whether the end of [w] is the end of the input (where
    [$] holds). *)
Inductive Matches : bool -> regex -> str -> Prop :=
| MEps e : Matches e Eps []
| MChr e c : Matches e (Chr c) [c]
| MChrI e c d : upper c = upper d -> Matches e (ChrI d) [c]
| MDot e c : lineTerminator c = false -> Matches e Dot [c]
| MOneOf e c cs : In c cs -> Matches e (OneOf cs) [c]
| MSeq e a b w1 w2 :
    Matches (e && isEmpty w2) a w1 -> Matches e b w2 ->
    Matches e (Seq a b) (w1 ++ w2)
| MAltL e a b w : Matches e a w -> Matches e (Alt a b) w
| MAltR e a b w : Matches e b w -> Matches e (Alt a b) w
| MStarNil e a : Matches e (Star a) []
| MStarApp e a w1 w2 :
    Matches (e && isEmpty w2) a w1 -> Matches e (Star a) w2 ->
    Matches e (Star a) (w1 ++ w2)
| MEol : Matches true Eol [].

(** A score the ranker can produce. *)
Definition scoredOk (s : ChangedFile * float) : Prop := Num.nonneg (snd s).

(** A group is not empty and holds files of its category only. *)
Definition groupOk (e : str * list ChangedFile) : Prop :=
  snd e <> [] /\ Forall (fun f => categorizeChange f = fst e) (snd e).

(** The rank of a category in [categoryOrder], and the comparator of the
    final sort on categories. *)
Definition importance (c : ChangeCategory) : Z := indexOf categoryOrder c.

Definition beforeCategory (a b : ChangeCategory) : bool :=
  (importance a - importance b <? 0)%Z.

(** No path occurs in two lists. *)
Definition pairwiseDisjoint (ls : list (list str)) : Prop :=
  forall i j a b,
    i <> j -> nth_error ls i = Some a -> nth_error ls j = Some b ->
    forall p, In p a -> ~ In p b.

(** The score before any weight, and the weights that apply to a file, in
    the order the ranker applies them. *)
Definition baseScore (file : ChangedFile) : float :=
  (0 + (Number (linesAdded file) + Number (linesRemoved file)))%float.

Definition applicableFactors (file : ChangedFile) : list float :=
  (if test sourceFilePattern (path file) then [1.5%float] else [])
  ++ (if str_eqb (changeType file) (lit "added") then [1.3%float] else [])
  ++ (if test testFilePattern (path file) then [0.7%float] else [])
  ++ (if isCategory (categorizeFileByPath (path file)) (lit "configuration")
      then [0.5%float] else [])
  ++ (if isCategory (categorizeFileByPath (path file)) (lit "documentation")
      then [0.3%float] else []).

(** The partition property as the specification words it: the file lists
    of the categories are pairwise disjoint and together hold the input
    paths, each once. *)
Definition partitionClaim (input : list ChangedFile) : Prop :=
  pairwiseDisjoint (List.map files (categorizeChanges input))
  /\ Permutation (List.concat (List.map files (categorizeChanges input)))
                 (List.map path input).

(** The length contract of the ranker as the specification words it. *)
Definition lengthClaim (input : list ChangedFile) (limit : Z) : Prop :=
  Z.of_nat (List.length (identifyKeyFiles input (Some limit)))
  = Z.min limit (Z.of_nat (List.length input)).

(** ** Inputs of the scenarios *)

Definition mkFile (p changeType : string) (added removed : N) : ChangedFile :=
  {| path := lit p; changeType := lit changeType;
     linesAdded := added; linesRemoved := removed |}.

Definition mkDiff (branch : string) (commits : list BranchCommit)
    (input : list ChangedFile) (added removed : N) : GitDiff.t :=
  {| GitDiff.context := {| currentBranch := lit branch |};
     GitDiff.commits := commits;
     GitDiff.files := input;
     GitDiff.stats := {| DiffStats.linesAdded := added;
                         DiffStats.linesRemoved := removed |} |}.

Definition readme : ChangedFile := mkFile "README.md" "modified" 5 1.
Definition src_x : ChangedFile := mkFile "src/x.ts" "added" 40 0.
Definition app_test : ChangedFile := mkFile "src/app.test.ts" "added" 12 0.
Definition a_added : ChangedFile := mkFile "a.ts" "added" 7 0.
Definition a_deleted : ChangedFile := mkFile "a.ts" "deleted" 0 7.

(* ================================================================== *)
(** * Vibe debt persistence (storage/vibedebt.ts): file naming *)
(* ================================================================== *)

Module Storage.

(** The class of filesystem-unsafe characters of [generateFilename]:
    slash, backslash, colon, star, question mark, double quote, angle
    brackets and bar. *)
Definition unsafeChars : list char := [47; 92; 58; 42; 63; 34; 60; 62; 124].

Definition isUnsafe (c : char) : bool := List.existsb (N.eqb c) unsafeChars.

Definition isDash (c : char) : bool := (c =? 45)%N.

Definition startsWithDash (s : str) : bool :=
  match s with
  | c :: _ => isDash c
  | [] => false
  end.

(** The two alternatives of [s.replace(/^-+|-+$/g, '')]: the run of dashes
    at the start, and the run of dashes at the end. *)
Fixpoint dropLeadingDashes (s : str) : str :=
  match s with
  | c :: s' => if isDash c then dropLeadingDashes s' else s
  | [] => []
  end.

Fixpoint dropTrailingDashes (s : str) : str :=
  match s with
  | [] => []
  | c :: s' =>
      match dropTrailingDashes s' with
      | [] => if isDash c then [] else [c]
      | kept => c :: kept
      end
  end.

(** [s.replace(/-{2,}/g, '-')]: every run of dashes shrinks to one dash. *)
Fixpoint collapseDashes (s : str) : str :=
  match s with
  | c :: s' =>
      if isDash c && startsWithDash s' then collapseDashes s'
      else c :: collapseDashes s'
  | [] => []
  end.

(** The [sanitized] branch name of [generateFilename]. *)
Definition sanitize (branchName : str) : str :=
  collapseDashes
    (dropTrailingDashes
       (dropLeadingDashes
          (replaceAll isUnsafe (lit "-") branchName))).

(** [generateFilename(branchName, date)]; the [Date] is held as the string
    [date.toISOString()] returns (the default, [new Date()], is the clock
    of the caller; an invalid [Date], on which [toISOString] throws, has no
    such string). *)
Definition generateFilename (branchName : str) (isoDate : str) : str :=
  (* Sanitize branch name for use in filename *)
  let sanitized := sanitize branchName in
  (* Format date as YYYY-MM-DD *)
  let dateStr := List.hd [] (split (fun c => (c =? 84)%N) isoDate) in
  sanitized ++ lit "_" ++ dateStr ++ lit ".json".

(** [projectRoot] is [None] when the caller leaves it out. *)
Definition getVibeDebtDir (projectRoot : option str) : str :=
  let projectRoot := match projectRoot with Some r => r | None => lit "." end in
  projectRoot ++ lit "/VibeDebt".

Definition getVibeDebtPath (branchName : str) (projectRoot : option str)
    (isoDate : str) : str :=
  let dir := getVibeDebtDir projectRoot in
  let filename := generateFilename branchName isoDate in
  dir ++ lit "/" ++ filename.

(* vocabulary *)

Fixpoint endsWithDash (s : str) : bool :=
  match s with
  | [] => false
  | [c] => isDash c
  | _ :: s' => endsWithDash s'
  end.

Fixpoint noDoubleDash (s : str) : bool :=
  match s with
  | c :: s' => negb (isDash c && startsWithDash s') && noDoubleDash s'
  | [] => true
  end.

(** A name the sanitizer leaves alone. *)
Definition clean (s : str) : Prop :=
  (forall c, In c s -> isUnsafe c = false)
  /\ startsWithDash s = false
  /\ endsWithDash s = false
  /\ noDoubleDash s = true.

End Storage.

Import Storage.

(* ================================================================== *)
(** * Vocabulary of the further properties *)
(* ================================================================== *)

(** [s] occurs in [p] as a substring. *)
Definition contains (p s : str) : Prop :=
  exists before rest, p = before ++ s ++ rest.

(** Every word the pattern matches holds a code unit of [cs]. *)
Fixpoint requires (cs : list char) (r : regex) : bool :=
  match r with
  | OneOf cs' => List.forallb (fun c => List.existsb (N.eqb c) cs) cs'
  | Seq a b => requires cs a || requires cs b
  | Alt a b => requires cs a && requires cs b
  | Never => true
  | _ => false
  end.

(** [c] is one of [/], [-], [_]. *)
Definition isDelimiter (c : char) : bool := List.existsb (N.eqb c) delimiters.

(** What follows the first delimiter of a branch name. *)
Fixpoint afterFirstDelimiter (s : str) : str :=
  match s with
  | [] => []
  | c :: s' => if isDelimiter c then s' else afterFirstDelimiter s'
  end.

(** Every delimiter turned into a space. *)
Definition spaced (s : str) : str :=
  List.map (fun c => if isDelimiter c then 32 else c) s.

(** Some file of the input falls in category [c]. *)
Definition present (input : list ChangedFile) (c : ChangeCategory) : bool :=
  List.existsb (fun f => str_eqb (categorizeChange f) c) input.

(** The files of category [c], in input order. *)
Definition filesOf (input : list ChangedFile) (c : ChangeCategory) : list ChangedFile :=
  filter (fun f => str_eqb (categorizeChange f) c) input.

(** The entry of category [c] for a group of files. *)
Definition entryOf (c : ChangeCategory) (group : list ChangedFile) : CategorizedChange :=
  {| category := c;
     description := generateCategoryDescription c group;
     files := List.map path group |}.

(** The whole ranking: the paths of [scored] once sorted. *)
Definition rankedPaths (files : list ChangedFile) : list str :=
  List.map (fun s => path (fst s)) (rankedFiles files).

(* ================================================================== *)
(** * Facts about binary64 arithmetic *)
(* ================================================================== *)

Module SFFacts.
Import SF.
Local Open Scope Z_scope.

(** The binary64 format. *)
Lemma prec_val : prec = 53.  Proof. reflexivity. Qed.
Lemma emax_val : emax = 1024.  Proof. reflexivity. Qed.
Lemma emin_val : SpecFloat.emin prec emax = -1074.  Proof. reflexivity. Qed.

Lemma fexp_val e : fexp prec emax e = Z.max (e - 53) (-1074).
Proof. reflexivity. Qed.

Lemma digits2_pos_bounds (m : positive) :
  2 ^ (Z.pos (digits2_pos m) - 1) <= Z.pos m < 2 ^ Z.pos (digits2_pos m).
Proof.
  induction m as [m IH | m IH | ]; simpl digits2_pos.
  - rewrite Pos2Z.inj_succ.
    replace (Z.succ (Z.pos (digits2_pos m)) - 1) with (Z.succ (Z.pos (digits2_pos m) - 1)) by lia.
    rewrite !Z.pow_succ_r by lia. lia.
  - rewrite Pos2Z.inj_succ.
    replace (Z.succ (Z.pos (digits2_pos m)) - 1) with (Z.succ (Z.pos (digits2_pos m) - 1)) by lia.
    rewrite !Z.pow_succ_r by lia. lia.
  - simpl. lia.
Qed.

Lemma shift_left_val (m d : positive) :
  Z.pos (Pos.iter xO m d) = Z.pos m * 2 ^ Z.pos d.
Proof.
  revert m. induction d as [| d IH] using Pos.peano_ind; intro m.
  - simpl. lia.
  - rewrite Pos.iter_succ, Pos2Z.inj_succ, Z.pow_succ_r by lia.
    rewrite Pos2Z.inj_xO, IH. lia.
Qed.

(** Shifting right keeps a mantissa non-negative and divides it. *)
Lemma shr_1_m (mrs : shr_record) :
  0 <= shr_m mrs -> shr_m (shr_1 mrs) = shr_m mrs / 2.
Proof.
  destruct mrs as [m r s]; simpl. intro H.
  destruct m as [| p | p]; [reflexivity | | lia].
  destruct p as [p | p |]; simpl shr_m.
  - apply Z.div_unique with (r := 1); lia.
  - apply Z.div_unique with (r := 0); lia.
  - reflexivity.
Qed.

Lemma iter_shr_1_m (p : positive) : forall mrs,
  0 <= shr_m mrs ->
  shr_m (iter_pos shr_1 p mrs) = shr_m mrs / 2 ^ Z.pos p.
Proof.
  assert (Hdiv : forall a b, 0 <= a -> 0 < b -> 0 <= a / b)
    by (intros; apply Z.div_pos; lia).
  induction p as [p IH | p IH | ]; intros mrs H; simpl iter_pos.
  - assert (H1 : 0 <= shr_m (shr_1 mrs)) by (rewrite shr_1_m by lia; apply Hdiv; lia).
    assert (Hp : 0 < 2 ^ Z.pos p) by (apply Z.pow_pos_nonneg; lia).
    rewrite IH, IH, shr_1_m by (try rewrite IH by lia; try apply Hdiv; lia).
    rewrite !Z.div_div by lia.
    f_equal.
    replace (Z.pos p~1) with (1 + Z.pos p + Z.pos p) by lia.
    rewrite !Z.pow_add_r by lia. lia.
  - assert (Hp : 0 < 2 ^ Z.pos p) by (apply Z.pow_pos_nonneg; lia).
    rewrite IH, IH by (try rewrite IH by lia; try apply Hdiv; lia).
    rewrite !Z.div_div by lia.
    f_equal.
    replace (Z.pos p~0) with (Z.pos p + Z.pos p) by lia.
    rewrite !Z.pow_add_r by lia. lia.
  - rewrite shr_1_m by lia. reflexivity.
Qed.

Lemma shr_record_of_loc_m m l : shr_m (shr_record_of_loc m l) = m.
Proof. destruct l as [| []]; reflexivity. Qed.

Lemma round_nearest_even_ge m l : m <= round_nearest_even m l.
Proof.
  destruct l as [| []]; simpl; try lia.
  destruct (Z.even m); lia.
Qed.

(** The mantissa after the shift of [shr_fexp]. *)
Lemma shr_fexp_nonneg m e l :
  0 <= m -> 0 <= shr_m (fst (shr_fexp prec emax m e l)).
Proof.
  intro H. unfold shr_fexp, shr.
  destruct (fexp prec emax (Zdigits2 m + e) - e) as [| q | q]; simpl fst;
    rewrite ?iter_shr_1_m, ?shr_record_of_loc_m; try lia.
  - apply Z.div_pos; [lia | apply Z.pow_pos_nonneg; lia].
  - rewrite shr_record_of_loc_m; lia.
Qed.

Lemma shr_fexp_pos m e l :
  0 < m -> -1074 <= e ->
  0 < shr_m (fst (shr_fexp prec emax m e l))
  /\ -1074 <= snd (shr_fexp prec emax m e l).
Proof.
  intros Hm He. unfold shr_fexp, shr.
  destruct m as [| p | p]; try lia. simpl Zdigits2.
  pose proof (digits2_pos_bounds p) as [Hlo _].
  rewrite fexp_val.
  destruct (Z.max (Z.pos (digits2_pos p) + e - 53) (-1074) - e) as [| q | q] eqn:Hq;
    simpl fst; simpl snd; rewrite ?shr_record_of_loc_m; try lia.
  rewrite iter_shr_1_m by (rewrite shr_record_of_loc_m; lia).
  rewrite shr_record_of_loc_m. split; [| lia].
  apply Z.div_str_pos. split; [apply Z.pow_pos_nonneg; lia |].
  apply Z.le_trans with (2 ^ (Z.pos (digits2_pos p) - 1)); [| exact Hlo].
  apply Z.pow_le_mono_r; lia.
Qed.

(** ** Signs of rounded results *)

Lemma binary_round_aux_nonneg m e l :
  0 <= m -> nonneg (binary_round_aux prec emax false m e l).
Proof.
  intro Hm. unfold binary_round_aux.
  pose proof (shr_fexp_nonneg e l Hm) as H1.
  destruct (shr_fexp prec emax m e l) as [mrs' e']. simpl fst in H1.
  pose proof (round_nearest_even_ge (shr_m mrs') (loc_of_shr_record mrs')) as Hr.
  assert (H2 : 0 <= round_nearest_even (shr_m mrs') (loc_of_shr_record mrs')) by lia.
  pose proof (shr_fexp_nonneg e' loc_Exact H2) as H3.
  destruct (shr_fexp prec emax _ e' loc_Exact) as [mrs'' e'']. simpl fst in H3.
  destruct (shr_m mrs'') as [| p | p]; simpl; try lia; auto.
  destruct (e'' <=? _); simpl; auto.
Qed.

Lemma binary_round_aux_signed s m e l :
  0 < m -> -1074 <= e -> signed s (binary_round_aux prec emax s m e l).
Proof.
  intros Hm He. unfold binary_round_aux.
  pose proof (shr_fexp_pos l Hm He) as [H1 H1e].
  destruct (shr_fexp prec emax m e l) as [mrs' e']. simpl fst in H1; simpl snd in H1e.
  pose proof (round_nearest_even_ge (shr_m mrs') (loc_of_shr_record mrs')) as Hr.
  assert (H2 : 0 < round_nearest_even (shr_m mrs') (loc_of_shr_record mrs')) by lia.
  pose proof (shr_fexp_pos loc_Exact H2 H1e) as [H3 _].
  destruct (shr_fexp prec emax _ e' loc_Exact) as [mrs'' e'']. simpl fst in H3.
  destruct (shr_m mrs'') as [| p | p]; simpl; try lia.
  destruct (e'' <=? _); simpl; auto.
Qed.

Lemma binary_round_nonneg m e : nonneg (binary_round prec emax false m e).
Proof.
  unfold binary_round.
  destruct (shl_align m e _) as [mz ez].
  apply binary_round_aux_nonneg; lia.
Qed.

Lemma binary_round_signed s m e :
  -1074 <= e -> signed s (binary_round prec emax s m e).
Proof.
  intro He. unfold binary_round, shl_align. rewrite fexp_val.
  destruct (Z.max (Z.pos (digits2_pos m) + e - 53) (-1074) - e) eqn:Hd;
    apply binary_round_aux_signed; lia.
Qed.

Lemma binary_normalize_nonneg z e :
  0 <= z -> nonneg (binary_normalize prec emax z e false).
Proof.
  destruct z; simpl; intro; try lia; auto using binary_round_nonneg.
Qed.

(** ** Sums and products of numbers that are not negative *)

Lemma SFadd_nonneg x y :
  nonneg x -> nonneg y -> nonneg (SFadd prec emax x y).
Proof.
  destruct x as [[] | [] | | [] mx ex], y as [[] | [] | | [] my ey];
    simpl; try tauto.
  intros _ _. apply binary_round_nonneg.
Qed.

Lemma SFmul_nonneg x m e :
  nonneg x -> nonneg (SFmul prec emax x (S754_finite false m e)).
Proof.
  destruct x as [[] | [] | | [] mx ex]; simpl; try tauto.
  intros _. apply binary_round_aux_nonneg. lia.
Qed.

Lemma SFldexp_nonneg x e : nonneg x -> nonneg (SFldexp prec emax x e).
Proof.
  destruct x as [[] | [] | | [] mx ex]; simpl; try tauto.
  intros _. apply binary_round_nonneg.
Qed.

(** ** The sign of a difference *)

Lemma bounded_facts m e :
  bounded prec emax m e = true ->
  -1074 <= e /\ Z.pos (digits2_pos m) <= 53
  /\ (-1074 < e -> Z.pos (digits2_pos m) = 53).
Proof.
  unfold bounded, canonical_mantissa. rewrite fexp_val.
  intro H. apply andb_true_iff in H. destruct H as [H _].
  apply Z.eqb_eq in H. lia.
Qed.

Lemma shl_align_val m e ez :
  ez <= e -> Z.pos (fst (shl_align m e ez)) = Z.pos m * 2 ^ (e - ez).
Proof.
  intro H. unfold shl_align.
  destruct (ez - e) as [| d | d] eqn:Hd; simpl fst; try lia.
  - replace (e - ez) with 0 by lia. simpl. lia.
  - rewrite shift_left_val. f_equal. f_equal. lia.
Qed.

(** Two finite numbers compare as their mantissas do once aligned on the
    smaller exponent. *)
Lemma SFltb_aligned m1 e1 m2 e2 :
  bounded prec emax m1 e1 = true -> bounded prec emax m2 e2 = true ->
  SFltb (S754_finite false m1 e1) (S754_finite false m2 e2)
  = (Z.pos (fst (shl_align m1 e1 (Z.min e1 e2)))
     <? Z.pos (fst (shl_align m2 e2 (Z.min e1 e2)))).
Proof.
  intros B1 B2.
  destruct (bounded_facts _ _ B1) as (L1 & D1 & N1).
  destruct (bounded_facts _ _ B2) as (L2 & D2 & N2).
  pose proof (digits2_pos_bounds m1) as [Lo1 Hi1].
  pose proof (digits2_pos_bounds m2) as [Lo2 Hi2].
  rewrite !shl_align_val by lia.
  unfold SFltb, SFcompare.
  destruct (Z.compare_spec e1 e2) as [E | E | E].
  - subst e2. rewrite Z.min_id, Z.sub_diag. simpl (2 ^ 0). rewrite !Z.mul_1_r.
    change (Pos.compare_cont Eq m1 m2) with (Pos.compare m1 m2).
    destruct (Pos.compare_spec m1 m2); symmetry;
      [apply Z.ltb_ge | apply Z.ltb_lt | apply Z.ltb_ge]; lia.
  - rewrite Z.min_l, Z.sub_diag by lia. simpl (2 ^ 0). rewrite Z.mul_1_r.
    symmetry. apply Z.ltb_lt.
    rewrite (N2 ltac:(lia)) in Lo2. simpl (53 - 1) in Lo2.
    assert (H53 : 2 ^ Z.pos (digits2_pos m1) <= 2 ^ 53)
      by (apply Z.pow_le_mono_r; lia).
    assert (H2 : 2 ^ 1 <= 2 ^ (e2 - e1)) by (apply Z.pow_le_mono_r; lia).
    change (2 ^ 1) with 2 in H2.
    change (2 ^ 53) with (2 * 2 ^ 52) in H53.
    nia.
  - rewrite Z.min_r, Z.sub_diag by lia. simpl (2 ^ 0). rewrite Z.mul_1_r.
    symmetry. apply Z.ltb_ge.
    rewrite (N1 ltac:(lia)) in Lo1. simpl (53 - 1) in Lo1.
    assert (H53 : 2 ^ Z.pos (digits2_pos m2) <= 2 ^ 53)
      by (apply Z.pow_le_mono_r; lia).
    assert (H2 : 2 ^ 1 <= 2 ^ (e1 - e2)) by (apply Z.pow_le_mono_r; lia).
    change (2 ^ 1) with 2 in H2.
    change (2 ^ 53) with (2 * 2 ^ 52) in H53.
    nia.
Qed.

Lemma SFltb_zero_signed s r : signed s r -> SFltb r (S754_zero false) = s.
Proof.
  destruct r as [| s' | | s' m e]; simpl; try tauto;
    intro; subst s'; destruct s; reflexivity.
Qed.

Lemma binary_normalize_sign d e :
  -1074 <= e ->
  SFltb (binary_normalize prec emax d e false) (S754_zero false) = (d <? 0).
Proof.
  intro He. destruct d as [| p | p]; simpl binary_normalize.
  - reflexivity.
  - apply SFltb_zero_signed, binary_round_signed, He.
  - apply SFltb_zero_signed, binary_round_signed, He.
Qed.

(** [y - x < 0] exactly when [y < x]: the comparator [b.score - a.score]
    orders two numbers as [<] does. *)
Lemma SFsub_sign x y :
  nonneg x -> nonneg y -> valid_binary x = true -> valid_binary y = true ->
  SFltb (SFsub prec emax y x) (S754_zero false) = SFltb y x.
Proof.
  destruct x as [[] | [] | | [] mx ex], y as [[] | [] | | [] my ey];
    simpl nonneg; try tauto; intros _ _ Vx Vy; try reflexivity.
  simpl in Vx, Vy.
  rewrite (SFltb_aligned _ _ _ _ Vy Vx).
  unfold SFsub. simpl cond_Zopp.
  destruct (bounded_facts _ _ Vx) as (Lx & _).
  destruct (bounded_facts _ _ Vy) as (Ly & _).
  rewrite binary_normalize_sign by lia.
  destruct (Z.ltb_spec (Z.pos (fst (shl_align my ey (Z.min ey ex)))
                        - Z.pos (fst (shl_align mx ex (Z.min ey ex)))) 0);
    symmetry; [apply Z.ltb_lt | apply Z.ltb_ge]; lia.
Qed.

(** ** The order of numbers that are not negative *)

Lemma SFcompare_key x y :
  nonneg x -> nonneg y ->
  match SFcompare x y with
  | Some Lt => key_lt (key x) (key y)
  | Some Eq => key x = key y
  | Some Gt => key_lt (key y) (key x)
  | None => False
  end.
Proof.
  destruct x as [[] | [] | | [] mx ex], y as [[] | [] | | [] my ey];
    simpl; try tauto; intros _ _; try lia.
  destruct (Z.compare_spec ex ey); try lia.
  subst. change (Pos.compare_cont Eq mx my) with (Pos.compare mx my).
  destruct (Pos.compare_spec mx my); try lia.
  subst. reflexivity.
Qed.

Lemma SFltb_key x y :
  nonneg x -> nonneg y -> (SFltb x y = true <-> key_lt (key x) (key y)).
Proof.
  intros Hx Hy. pose proof (SFcompare_key _ _ Hx Hy) as H.
  unfold SFltb. destruct (SFcompare x y) as [[] |]; try tauto;
    (split; [discriminate |]); destruct (key x) as [[? ?] ?], (key y) as [[? ?] ?];
    simpl in *; try injection H; intros; lia.
Qed.

Lemma SFleb_key x y :
  nonneg x -> nonneg y ->
  (SFleb x y = true <-> key_lt (key x) (key y) \/ key x = key y).
Proof.
  intros Hx Hy. pose proof (SFcompare_key _ _ Hx Hy) as H.
  unfold SFleb. destruct (SFcompare x y) as [[] |]; try tauto.
  split; [discriminate |]. destruct (key x) as [[? ?] ?], (key y) as [[? ?] ?].
  simpl in *. intros [? | E]; [| injection E; intros]; lia.
Qed.

Lemma SFeqb_key x y :
  nonneg x -> nonneg y -> (SFeqb x y = true <-> key x = key y).
Proof.
  intros Hx Hy. pose proof (SFcompare_key _ _ Hx Hy) as H.
  unfold SFeqb. destruct (SFcompare x y) as [[] |]; try tauto;
    (split; [discriminate |]); destruct (key x) as [[? ?] ?], (key y) as [[? ?] ?];
    simpl in *; intro E; injection E; intros; lia.
Qed.

End SFFacts.

Module NumFacts.
Import SFFacts Num.
Local Open Scope float_scope.

Lemma nonneg_zero : nonneg 0.
Proof. exact I. Qed.

Lemma nonneg_add a b : nonneg a -> nonneg b -> nonneg (a + b).
Proof. unfold nonneg. rewrite add_spec. apply SFadd_nonneg. Qed.

Lemma nonneg_mul a c :
  SF.signed false (Prim2SF c) -> is_infinity c = false ->
  nonneg a -> nonneg (a * c).
Proof.
  unfold nonneg. rewrite mul_spec. intros Hc Hi Ha.
  destruct (Prim2SF c) as [| s | | s m e] eqn:E; simpl in Hc; try tauto; subst s.
  - exfalso. rewrite <- (SF2Prim_Prim2SF c), E in Hi. discriminate Hi.
  - apply SFmul_nonneg, Ha.
Qed.

Lemma nonneg_Number_aux x :
  SF.nonneg x -> nonneg (SF2Prim x).
Proof.
  unfold nonneg.
  destruct x as [[] | [] | | [] m e]; simpl SF.nonneg; try tauto;
    intros _; try exact I.
  unfold SF2Prim. rewrite Z_ldexp_spec, of_uint63_spec.
  apply SFldexp_nonneg, binary_normalize_nonneg.
  apply Uint63.to_Z_bounded.
Qed.

(** The comparator [b - a] is negative exactly when [b < a]. *)
Lemma sub_ltb a b : nonneg a -> nonneg b -> (b - a <? 0) = (b <? a).
Proof.
  unfold nonneg. intros Ha Hb.
  rewrite !ltb_spec, sub_spec.
  apply SFsub_sign; auto using Prim2SF_valid.
Qed.

Lemma ltb_key a b :
  nonneg a -> nonneg b -> ((a <? b) = true <-> SF.key_lt (key a) (key b)).
Proof. intros. rewrite ltb_spec. now apply SFltb_key. Qed.

Lemma leb_key a b :
  nonneg a -> nonneg b ->
  ((a <=? b) = true <-> SF.key_lt (key a) (key b) \/ key a = key b).
Proof. intros. rewrite leb_spec. now apply SFleb_key. Qed.

Lemma eqb_key a b :
  nonneg a -> nonneg b -> ((a =? b) = true <-> key a = key b).
Proof. intros. rewrite eqb_spec. now apply SFeqb_key. Qed.

End NumFacts.

(* ================================================================== *)
(** * Facts about the runtime *)
(* ================================================================== *)

Lemma str_eqb_refl (a : str) : str_eqb a a = true.
Proof.
  induction a as [| c a IH]; simpl; [reflexivity |].
  now rewrite N.eqb_refl, IH.
Qed.

Lemma str_eqb_eq (a b : str) : str_eqb a b = true <-> a = b.
Proof.
  split; [| intros ->; apply str_eqb_refl].
  revert b. induction a as [| c a IH]; intros [| d b]; simpl; try discriminate; auto.
  intro H. apply andb_true_iff in H. destruct H as [H1 H2].
  apply N.eqb_eq in H1. apply IH in H2. congruence.
Qed.

Lemma str_eqb_neq (a b : str) : str_eqb a b = false <-> a <> b.
Proof.
  rewrite <- str_eqb_eq. destruct (str_eqb a b); split; congruence.
Qed.

Lemma Permutation_concat (A : Type) (l l' : list (list A)) :
  Permutation l l' -> Permutation (List.concat l) (List.concat l').
Proof.
  induction 1 as [| x l l' _ IH | x y l | l l' l'' _ IH1 _ IH2]; simpl.
  - constructor.
  - now apply Permutation_app_head.
  - rewrite !app_assoc. apply Permutation_app_tail, Permutation_app_comm.
  - now transitivity (List.concat l').
Qed.

(** ** The stable sort *)

Section SortFacts.
Variable A : Type.
Variable before : A -> A -> bool.

Lemma insert_perm (x : A) (l : list A) : Permutation (insert before x l) (x :: l).
Proof.
  induction l as [| y l IH]; simpl; [reflexivity |].
  destruct (before y x); [| reflexivity].
  rewrite IH. apply perm_swap.
Qed.

Lemma sort_perm (l : list A) : Permutation (sort before l) l.
Proof.
  induction l as [| x l IH]; simpl; [reflexivity |].
  now rewrite insert_perm, IH.
Qed.

Lemma sort_length (l : list A) : List.length (sort before l) = List.length l.
Proof. apply Permutation_length, sort_perm. Qed.

Lemma sort_In (l : list A) (x : A) : In x (sort before l) <-> In x l.
Proof.
  split; apply Permutation_in; [| symmetry]; apply sort_perm.
Qed.

(** Stability: the elements of a class of mutually tied elements keep
    their order. *)
Lemma insert_filter (p : A -> bool) (x : A) (l : list A) :
  (p x = true -> forall y, In y l -> p y = true -> before y x = false) ->
  filter p (insert before x l) = filter p (x :: l).
Proof.
  induction l as [| y l IH]; intro H; [reflexivity |].
  simpl insert. destruct (before y x) eqn:E; [| reflexivity].
  simpl filter in *. rewrite IH by (intros Hx z Hz; apply H; simpl; auto).
  destruct (p x) eqn:Px; [| reflexivity].
  destruct (p y) eqn:Py; [| reflexivity].
  rewrite (H eq_refl y) in E by (simpl; auto). discriminate E.
Qed.

Lemma sort_filter (p : A -> bool) (l : list A) :
  (forall x y, In x l -> In y l -> p x = true -> p y = true -> before y x = false) ->
  filter p (sort before l) = filter p l.
Proof.
  induction l as [| x l IH]; intro H; [reflexivity |].
  simpl sort. rewrite insert_filter.
  - simpl. rewrite IH by (intros; apply H; simpl; auto). reflexivity.
  - intros Px y Hy Py. apply H; simpl; auto.
    right. now apply sort_In.
Qed.

(** Sortedness, for a comparator that is consistent on the elements that
    satisfy [P]. *)
Variable P : A -> Prop.
Hypothesis before_asym :
  forall a b, P a -> P b -> before a b = true -> before b a = false.
Hypothesis before_negtrans :
  forall a b c, P a -> P b -> P c ->
    before a b = false -> before b c = false -> before a c = false.

Lemma insert_sorted (x : A) (l : list A) :
  P x -> Forall P l ->
  StronglySorted (fun a b => before b a = false) l ->
  StronglySorted (fun a b => before b a = false) (insert before x l).
Proof.
  intros Px. induction l as [| y l IH]; intros Pl Sl; simpl.
  - repeat constructor.
  - inversion Pl as [| ? ? Py Pl']; subst.
    inversion Sl as [| ? ? Sl' Hy]; subst.
    destruct (before y x) eqn:E.
    + constructor; [now apply IH |].
      apply Forall_forall. intros z Hz.
      apply (Permutation_in _ (insert_perm x l)) in Hz. destruct Hz as [<- | Hz].
      * now apply before_asym.
      * rewrite Forall_forall in Hy. now apply Hy.
    + constructor; [assumption |].
      constructor; [assumption |].
      rewrite Forall_forall in Hy, Pl' |- *. intros z Hz.
      apply before_negtrans with y; auto.
Qed.

Lemma sort_sorted (l : list A) :
  Forall P l -> StronglySorted (fun a b => before b a = false) (sort before l).
Proof.
  induction l as [| x l IH]; intro Pl; simpl; [constructor |].
  inversion Pl as [| ? ? Px Pl']; subst.
  apply insert_sorted; [exact Px | | apply IH, Pl'].
  rewrite Forall_forall in *. intros y Hy. apply Pl'. now apply sort_In.
Qed.

Lemma tied_iff (a b : A) :
  tied before a b = true <-> before a b = false /\ before b a = false.
Proof.
  unfold tied. rewrite andb_true_iff, !negb_true_iff. tauto.
Qed.

Lemma before_irrefl (a : A) : P a -> before a a = false.
Proof.
  intro Pa. destruct (before a a) eqn:E; [| reflexivity].
  now rewrite (before_asym Pa Pa E) in E.
Qed.

(** Two sorted arrangements of the same elements that agree on every
    class of tied elements are equal. *)
Lemma stable_sorted_unique (l1 l2 : list A) :
  Forall P l1 -> Permutation l1 l2 ->
  StronglySorted (fun a b => before b a = false) l1 ->
  StronglySorted (fun a b => before b a = false) l2 ->
  (forall a, P a -> filter (tied before a) l1 = filter (tied before a) l2) ->
  l1 = l2.
Proof.
  intros P1 Perm S1. revert l2 P1 Perm.
  induction S1 as [| x l1 S1 IH H1]; intros l2 P1 Perm S2 St.
  - now apply Permutation_nil in Perm.
  - destruct S2 as [| y l2 S2 H2];
      [symmetry in Perm; now apply Permutation_nil in Perm |].
    inversion P1 as [| ? ? Px P1']; subst.
    rewrite Forall_forall in H1, H2.
    assert (Py : P y).
    { rewrite Forall_forall in P1. apply P1.
      apply (Permutation_in _ (Permutation_sym Perm)). simpl; auto. }
    assert (Txy : tied before x y = true).
    { apply tied_iff. split.
      - destruct (Permutation_in _ Perm (or_introl eq_refl)) as [<- | Hx];
          [now apply before_irrefl | now apply H2].
      - destruct (Permutation_in _ (Permutation_sym Perm) (or_introl eq_refl))
          as [<- | Hy]; [now apply before_irrefl | now apply H1]. }
    assert (x = y) as <-.
    { pose proof (St x Px) as E. simpl in E.
      rewrite Txy in E.
      replace (tied before x x) with true in E
        by (symmetry; apply tied_iff; split; now apply before_irrefl).
      now injection E. }
    f_equal. apply IH; auto.
    + now apply Permutation_cons_inv in Perm.
    + intros a Pa. specialize (St a Pa). simpl in St.
      destruct (tied before a x); [now injection St | exact St].
Qed.

(** [sort] is the stable sort: any arrangement of the elements that is
    sorted for the comparator and keeps tied elements in their order is
    the one [sort] computes. *)
Lemma sort_is_stable_sort (l l' : list A) :
  Forall P l -> Permutation l' l ->
  StronglySorted (fun a b => before b a = false) l' ->
  (forall a, P a -> filter (tied before a) l' = filter (tied before a) l) ->
  l' = sort before l.
Proof.
  intros Pl Perm S St.
  assert (Pl' : Forall P l').
  { rewrite Forall_forall in *. intros x Hx. apply Pl, (Permutation_in _ Perm Hx). }
  apply stable_sorted_unique; auto.
  - rewrite Perm. symmetry. apply sort_perm.
  - now apply sort_sorted.
  - intros a Pa. rewrite (St a Pa). symmetry. apply sort_filter.
    rewrite Forall_forall in Pl. intros x y Hx Hy Tx Ty.
    apply tied_iff in Tx, Ty.
    apply before_negtrans with a; auto; tauto.
Qed.

End SortFacts.

Lemma sort_map (A B : Type) (f : A -> B) (before : B -> B -> bool) (l : list A) :
  List.map f (sort (fun a b => before (f a) (f b)) l) = sort before (List.map f l).
Proof.
  induction l as [| x l IH]; [reflexivity |].
  simpl. rewrite <- IH. generalize (sort (fun a b => before (f a) (f b)) l).
  intro s. induction s as [| y s IHs]; [reflexivity |].
  simpl. destruct (before (f y) (f x)); simpl; [now rewrite IHs | reflexivity].
Qed.

Lemma In_firstn (A : Type) (n : nat) (l : list A) (x : A) :
  In x (firstn n l) -> In x l.
Proof.
  intro H. rewrite <- (firstn_skipn n l). apply in_or_app. now left.
Qed.

Lemma StronglySorted_firstn (A : Type) (R : A -> A -> Prop) (n : nat) (l : list A) :
  StronglySorted R l -> StronglySorted R (firstn n l).
Proof.
  intro S. revert n. induction S as [| x l S IH H]; intros [| n]; simpl; try constructor.
  - apply IH.
  - rewrite Forall_forall in *. intros y Hy. apply H. eapply In_firstn; eauto.
Qed.

(** ** The order of keys *)

Module KeyFacts.
Import SF.
Local Open Scope Z_scope.

Lemma key_lt_asym a b : key_lt a b -> ~ key_lt b a.
Proof. destruct a as [[? ?] ?], b as [[? ?] ?]; simpl; lia. Qed.

Lemma key_lt_negtrans a b c : ~ key_lt a b -> ~ key_lt b c -> ~ key_lt a c.
Proof. destruct a as [[? ?] ?], b as [[? ?] ?], c as [[? ?] ?]; simpl; lia. Qed.

Lemma key_lt_total a b : ~ key_lt a b -> key_lt b a \/ b = a.
Proof.
  destruct a as [[c1 e1] m1], b as [[c2 e2] m2]; simpl; intro H.
  destruct (Z.eq_dec c1 c2) as [-> |]; [| lia].
  destruct (Z.eq_dec e1 e2) as [-> |]; [| lia].
  destruct (Z.eq_dec m1 m2) as [-> |]; [auto | lia].
Qed.

Lemma key_lt_irrefl a : ~ key_lt a a.
Proof. destruct a as [[? ?] ?]; simpl; lia. Qed.

Lemma SFeqb_key_l x s : nonneg x -> SFeqb x s = true -> key x = key s.
Proof.
  unfold SFeqb.
  destruct x as [[] | [] | | [] mx ex], s as [[] | [] | | [] ms es];
    simpl; try tauto; try discriminate; intros _; auto.
  destruct (Z.compare_spec ex es); try discriminate.
  subst. change (Pos.compare_cont Eq mx ms) with (Pos.compare mx ms).
  destruct (Pos.compare_spec mx ms); try discriminate.
  now subst.
Qed.

End KeyFacts.

(* ================================================================== *)
(** * Facts about the ranker *)
(* ================================================================== *)

Section Ranker.
Import NumFacts KeyFacts.
Local Open Scope float_scope.

Lemma nonneg_Number (n : N) : Num.nonneg (Number n).
Proof.
  apply nonneg_Number_aux, SFFacts.binary_normalize_nonneg. lia.
Qed.

Lemma nonneg_weight (c : float) (b : bool) (a : float) :
  SF.signed false (Prim2SF c) -> is_infinity c = false ->
  Num.nonneg a -> Num.nonneg (if b then a * c else a).
Proof. destruct b; auto using nonneg_mul. Qed.

(** No score is negative or [NaN]. *)
Lemma fileScore_nonneg (file : ChangedFile) : Num.nonneg (fileScore file).
Proof.
  unfold fileScore. cbv zeta.
  repeat (apply nonneg_weight; [reflexivity | reflexivity |]).
  apply nonneg_add; [apply nonneg_zero |].
  apply nonneg_add; apply nonneg_Number.
Qed.

Lemma byScore_ltb a b :
  scoredOk a -> scoredOk b -> byScore a b = (snd b <? snd a).
Proof. intros Ha Hb. unfold byScore. now apply sub_ltb. Qed.

Lemma ltb_false_key a b :
  Num.nonneg a -> Num.nonneg b ->
  ((a <? b) = false <-> ~ SF.key_lt (Num.key a) (Num.key b)).
Proof.
  intros Ha Hb. rewrite <- (ltb_key _ _ Ha Hb). destruct (a <? b); split; congruence.
Qed.

Lemma byScore_asym a b :
  scoredOk a -> scoredOk b -> byScore a b = true -> byScore b a = false.
Proof.
  intros Ha Hb. rewrite !byScore_ltb by assumption.
  rewrite (ltb_key _ _ Hb Ha), (ltb_false_key _ _ Ha Hb). apply key_lt_asym.
Qed.

Lemma byScore_negtrans a b c :
  scoredOk a -> scoredOk b -> scoredOk c ->
  byScore a b = false -> byScore b c = false -> byScore a c = false.
Proof.
  intros Ha Hb Hc. rewrite !byScore_ltb by assumption.
  rewrite (ltb_false_key _ _ Hb Ha), (ltb_false_key _ _ Hc Hb), (ltb_false_key _ _ Hc Ha).
  intros H1 H2. eapply key_lt_negtrans; eauto.
Qed.

Lemma byScore_false_leb a b :
  scoredOk a -> scoredOk b -> byScore b a = false -> (snd b <=? snd a) = true.
Proof.
  intros Ha Hb. rewrite byScore_ltb by assumption.
  rewrite (ltb_false_key _ _ Ha Hb), (leb_key _ _ Hb Ha).
  intro H. destruct (key_lt_total _ _ H) as [| E]; auto.
Qed.

Lemma byScore_tied (s : float) a b :
  scoredOk a -> scoredOk b ->
  (snd a =? s) = true -> (snd b =? s) = true -> byScore b a = false.
Proof.
  intros Ha Hb Ea Eb. rewrite byScore_ltb by assumption.
  apply (ltb_false_key _ _ Ha Hb).
  rewrite eqb_spec in Ea, Eb.
  unfold Num.key.
  rewrite (SFeqb_key_l _ _ Ha Ea), (SFeqb_key_l _ _ Hb Eb).
  apply key_lt_irrefl.
Qed.

Lemma scored_ok (files : list ChangedFile) :
  Forall scoredOk (List.map (fun file => (file, fileScore file)) files).
Proof.
  apply Forall_forall. intros s Hs. apply in_map_iff in Hs.
  destruct Hs as (f & <- & _). apply fileScore_nonneg.
Qed.

End Ranker.

Lemma StronglySorted_map_In (A B : Type) (R : A -> A -> Prop) (R' : B -> B -> Prop)
    (f : A -> B) (l : list A) :
  (forall a b, In a l -> In b l -> R a b -> R' (f a) (f b)) ->
  StronglySorted R l -> StronglySorted R' (List.map f l).
Proof.
  intros H S. induction S as [| x l S IH Hx]; simpl; constructor.
  - apply IH. intros; apply H; simpl; auto.
  - rewrite Forall_forall in *. intros y Hy. apply in_map_iff in Hy.
    destruct Hy as (z & <- & Hz). apply H; simpl; auto.
Qed.

Lemma filter_map_In (A B : Type) (f : A -> B) (p : A -> bool) (q : B -> bool)
    (l : list A) :
  (forall x, In x l -> p x = q (f x)) ->
  List.map f (filter p l) = filter q (List.map f l).
Proof.
  induction l as [| x l IH]; intro H; [reflexivity |].
  simpl. rewrite <- (H x) by (simpl; auto).
  destruct (p x); simpl; rewrite IH by (intros; apply H; simpl; auto); reflexivity.
Qed.

Lemma slice0_firstn (A : Type) (a : list A) (e : Z) :
  exists k, slice0 a e = firstn k a.
Proof. unfold slice0. eauto. Qed.

Lemma slice0_length (A : Type) (a : list A) (e : Z) :
  (0 <= e)%Z ->
  Z.of_nat (List.length (slice0 a e)) = Z.min e (Z.of_nat (List.length a)).
Proof.
  intro H. unfold slice0.
  destruct (Z.ltb_spec e 0); [lia |].
  rewrite length_firstn. lia.
Qed.

Section RankerProperties.
Import NumFacts KeyFacts.
Local Open Scope float_scope.

Lemma ranked_entries (files : list ChangedFile) (x : ChangedFile * float) :
  In x (rankedFiles files) -> In (fst x) files /\ snd x = fileScore (fst x).
Proof.
  unfold rankedFiles. intro H. apply sort_In in H. apply in_map_iff in H.
  destruct H as (f & <- & Hf). auto.
Qed.

Lemma ranked_ok (files : list ChangedFile) : Forall scoredOk (rankedFiles files).
Proof.
  apply Forall_forall. intros x Hx. apply ranked_entries in Hx.
  unfold scoredOk. destruct Hx as [_ ->]. apply fileScore_nonneg.
Qed.

Lemma ranked_sorted (files : list ChangedFile) :
  StronglySorted (fun a b => byScore b a = false) (rankedFiles files).
Proof.
  apply sort_sorted with (P := scoredOk).
  - apply byScore_asym.
  - apply byScore_negtrans.
  - apply scored_ok.
Qed.

Lemma ranked_stable (files : list ChangedFile) (s : float) :
  filter (fun x => snd x =? s) (rankedFiles files)
  = filter (fun x => snd x =? s) (List.map (fun file => (file, fileScore file)) files).
Proof.
  apply sort_filter. intros x y Hx Hy Ex Ey.
  pose proof (scored_ok files) as Ok. rewrite Forall_forall in Ok.
  apply byScore_tied with s; auto.
Qed.

(** C2, as amended: the default limit is 5; for a limit that is not
    negative the ranker returns [min(limit, number of files)] paths; for
    every limit each returned path is a path of the input, the scores of
    the returned files do not increase along the sequence, and files of
    equal score keep their input order (among the files of one score the
    returned ones are the first of the input, in input order). *)
Theorem identifyKeyFiles_ranking (files : list ChangedFile) (limit : Z) :
  identifyKeyFiles files None = identifyKeyFiles files (Some 5%Z)
  /\ ((0 <= limit)%Z -> lengthClaim files limit)
  /\ (forall p, In p (identifyKeyFiles files (Some limit)) -> In p (List.map path files))
  /\ exists selected : list ChangedFile,
       identifyKeyFiles files (Some limit) = List.map path selected
       /\ StronglySorted (fun a b => (fileScore b <=? fileScore a) = true) selected
       /\ forall s : float, exists rest,
            filter (fun f => fileScore f =? s) files
            = filter (fun f => fileScore f =? s) selected ++ rest.
Proof.
  assert (Hsel : identifyKeyFiles files (Some limit)
                 = List.map path (List.map fst (slice0 (rankedFiles files) limit)))
    by (unfold identifyKeyFiles; now rewrite map_map).
  destruct (slice0_firstn (rankedFiles files) limit) as [k Hk].
  assert (Hin : forall x, In x (firstn k (rankedFiles files)) ->
                          In x (rankedFiles files)) by apply In_firstn.
  split; [reflexivity |]. split; [| split].
  - intro H. unfold lengthClaim, identifyKeyFiles.
    rewrite length_map, slice0_length by assumption.
    unfold rankedFiles. now rewrite sort_length, length_map.
  - intros p Hp. rewrite Hsel, Hk in Hp.
    apply in_map_iff in Hp. destruct Hp as (f & <- & Hf).
    apply in_map_iff in Hf. destruct Hf as (x & <- & Hx).
    apply in_map, ranked_entries, Hin, Hx.
  - exists (List.map fst (slice0 (rankedFiles files) limit)).
    split; [exact Hsel |]. rewrite Hk. split.
    + apply StronglySorted_map_In
        with (R := fun a b : ChangedFile * float => byScore b a = false).
      * intros a b Ha Hb Hab.
        pose proof (ranked_ok files) as Ok. rewrite Forall_forall in Ok.
        destruct (ranked_entries _ _ (Hin _ Ha)) as [_ <-].
        destruct (ranked_entries _ _ (Hin _ Hb)) as [_ <-].
        apply byScore_false_leb; auto.
      * apply StronglySorted_firstn, ranked_sorted.
    + intro s.
      exists (List.map fst (filter (fun x => snd x =? s) (skipn k (rankedFiles files)))).
      rewrite <- (filter_map_In fst (fun x : ChangedFile * float => snd x =? s)
                    (fun f => fileScore f =? s) (firstn k (rankedFiles files)))
        by (intros x Hx; now destruct (ranked_entries _ _ (Hin _ Hx)) as [_ ->]).
      rewrite <- map_app, <- filter_app, firstn_skipn, ranked_stable.
      rewrite (filter_map_In fst (fun x : ChangedFile * float => snd x =? s)
                 (fun f => fileScore f =? s))
        by (intros x Hx; apply in_map_iff in Hx; now destruct Hx as (f & <- & _)).
      now rewrite map_map, map_id.
Qed.

Lemma identifyKeyFiles_ranking_witness : lengthClaim [readme; src_x] 1.
Proof.
  apply (proj1 (proj2 (identifyKeyFiles_ranking [readme; src_x] 1))).
  vm_compute. discriminate.
Defined.

(** C2, as the specification words it, fails for a negative limit:
    [slice(0, -1)] drops the last element, so two files and the limit
    [-1] give one path, not [min(-1, 2)]. *)
Lemma lengthClaim_counterexample : ~ lengthClaim [readme; src_x] (-1).
Proof. unfold lengthClaim. vm_compute. discriminate. Qed.

Lemma fileScore_factors (file : ChangedFile) :
  fileScore file = List.fold_left PrimFloat.mul (applicableFactors file) (baseScore file).
Proof.
  unfold fileScore, applicableFactors, baseScore. cbv zeta.
  destruct (test sourceFilePattern _), (str_eqb (changeType file) _),
    (test testFilePattern _), (isCategory _ (lit "configuration")),
    (isCategory _ (lit "documentation")); reflexivity.
Qed.

(** C8: the score of a file is its base score multiplied by the
    applicable weights in the order 1.5, 1.3, 0.7, 0.5, 0.3, each product
    rounded to binary64; the order matters: for [a.ts], added with 7
    lines, the weights 1.5 then 1.3 give 13.65, while 1.3 then 1.5 give
    13.649999999999999. *)
Theorem scoring_order_matters :
  (forall file,
      fileScore file
      = List.fold_left PrimFloat.mul (applicableFactors file) (baseScore file))
  /\ (exists file reordered,
         Permutation reordered (applicableFactors file)
         /\ (List.fold_left PrimFloat.mul reordered (baseScore file) =? fileScore file)
            = false)
  /\ applicableFactors a_added = [1.5; 1.3]
  /\ fileScore a_added = 13.65
  /\ List.fold_left PrimFloat.mul [1.3; 1.5] (baseScore a_added) = 13.649999999999999.
Proof.
  split; [exact fileScore_factors |]. split; [| repeat split; reflexivity].
  exists a_added, [1.3; 1.5].
  split; [apply perm_swap | reflexivity].
Qed.

End RankerProperties.

(* ================================================================== *)
(** * Facts about the matcher *)
(* ================================================================== *)

Lemma nullable_Matches (e : bool) (r : regex) :
  nullable e r = true <-> Matches e r [].
Proof.
  split.
  - induction r; simpl; intro H; try discriminate.
    + constructor.
    + apply andb_true_iff in H. destruct H as [H1 H2].
      apply (@MSeq e r1 r2 [] []); [simpl; rewrite andb_true_r |]; auto.
    + apply orb_true_iff in H. destruct H; [apply MAltL | apply MAltR]; auto.
    + constructor.
    + subst. constructor.
  - intro H. remember [] as w eqn:E.
    induction H; simpl; try discriminate; auto.
    + apply app_eq_nil in E. destruct E as [-> ->].
      simpl in *. rewrite andb_true_r in *. rewrite IHMatches1, IHMatches2; auto.
    + rewrite IHMatches; auto.
    + rewrite IHMatches; auto using orb_true_r.
Qed.

Lemma existsb_eqb_In (c : char) (cs : list char) :
  List.existsb (N.eqb c) cs = true <-> In c cs.
Proof.
  rewrite existsb_exists. split.
  - intros (x & Hx & E). apply N.eqb_eq in E. now subst.
  - intro H. exists c. split; [assumption | apply N.eqb_refl].
Qed.

Lemma deriv_Matches (c : char) (r : regex) : forall e w,
  Matches e (deriv c r) w <-> Matches e r (c :: w).
Proof.
  intros e w. split.
  - revert e w. induction r; simpl; intros e w H.
    + inversion H.
    + inversion H.
    + destruct (N.eqb_spec c c0); inversion H; subst. constructor.
    + destruct (N.eqb_spec (upper c) (upper c0)); inversion H; subst. now constructor.
    + destruct (lineTerminator c) eqn:E; inversion H; subst. now constructor.
    + destruct (List.existsb (N.eqb c) cs) eqn:E; inversion H; subst.
      constructor. now apply existsb_eqb_In.
    + assert (L : forall w, Matches e (Seq (deriv c r1) r2) w ->
                            Matches e (Seq r1 r2) (c :: w)).
      { intros w' H'. inversion H'; subst.
        apply (@MSeq e r1 r2 (c :: w1) w2); auto. }
      destruct (nullable false r1) eqn:N; [| now apply L].
      inversion H; subst; [now apply L |].
      apply (@MSeq e r1 r2 [] (c :: w)); [| now apply IHr2].
      simpl. rewrite andb_false_r. now apply nullable_Matches.
    + inversion H; subst; [apply MAltL | apply MAltR]; auto.
    + inversion H; subst.
      apply (@MStarApp e r (c :: w1) w2); auto.
    + inversion H.
  - intro H. remember (c :: w) as s eqn:E. revert w E.
    induction H as [ e | e c0 | e c0 d Hu | e c0 Hl | e c0 cs Hin
                   | e a b w1 w2 H1 IH1 H2 IH2 | e a b w0 H0 IH0 | e a b w0 H0 IH0
                   | e a | e a w1 w2 H1 IH1 H2 IH2 | ];
      intros w E; try discriminate.
    + injection E as -> <-. simpl. rewrite N.eqb_refl. constructor.
    + injection E as -> <-. simpl. rewrite Hu, N.eqb_refl. constructor.
    + injection E as -> <-. simpl. rewrite Hl. constructor.
    + injection E as -> <-. simpl.
      rewrite (proj2 (existsb_eqb_In _ _) Hin). constructor.
    + simpl. destruct w1 as [| c1 w1]; simpl in E.
      * subst w2. simpl in H1. rewrite andb_false_r in H1.
        rewrite (proj2 (nullable_Matches _ _) H1).
        apply MAltR. now apply IH2.
      * injection E as -> <-.
        assert (L : Matches e (Seq (deriv c a) b) (w1 ++ w2))
          by (constructor; auto).
        destruct (nullable false a); [now apply MAltL | exact L].
    + simpl. now apply MAltL, IH0.
    + simpl. now apply MAltR, IH0.
    + destruct w1 as [| c1 w1]; simpl in E.
      * subst w2. now apply IH2.
      * injection E as -> <-. simpl. constructor; auto.
Qed.

(** [matchHere] finds the prefixes the pattern matches. *)
Lemma matchHere_spec (r : regex) (s : str) :
  matchHere r s = true
  <-> exists w rest, s = w ++ rest /\ Matches (isEmpty rest) r w.
Proof.
  revert r. induction s as [| c s IH]; intro r; simpl.
  - rewrite nullable_Matches. split.
    + intro H. now exists [], [].
    + intros (w & rest & E & H). symmetry in E.
      apply app_eq_nil in E. now destruct E as [-> ->].
  - rewrite orb_true_iff, nullable_Matches, IH. split.
    + intros [H | (w & rest & -> & H)].
      * now exists [], (c :: s).
      * exists (c :: w), rest. split; [reflexivity | now apply deriv_Matches].
    + intros (w & rest & E & H). destruct w as [| c' w]; simpl in E.
      * subst rest. now left.
      * injection E as <- ->. right. exists w, rest.
        split; [reflexivity | now apply deriv_Matches].
Qed.

(** [test] finds the substrings the pattern matches. *)
Theorem test_spec (r : regex) (s : str) :
  test r s = true
  <-> exists before w rest, s = before ++ w ++ rest /\ Matches (isEmpty rest) r w.
Proof.
  induction s as [| c s IH]; cbn [test].
  - rewrite orb_false_r, matchHere_spec. split.
    + intros (w & rest & E & H). now exists [], w, rest.
    + intros (b & w & rest & E & H). symmetry in E.
      apply app_eq_nil in E. destruct E as [-> E]. now exists w, rest.
  - rewrite orb_true_iff, matchHere_spec, IH. split.
    + intros [(w & rest & E & H) | (b & w & rest & -> & H)].
      * now exists [], w, rest.
      * now exists (c :: b), w, rest.
    + intros (b & w & rest & E & H). destruct b as [| c' b]; simpl in E.
      * left. now exists w, rest.
      * injection E as <- ->. right. now exists b, w, rest.
Qed.

(** Whatever [/hotfix[\/\-_]/i] matches, [/fix[\/\-_]/i] matches too. *)
Lemma hotfix_shadowed (branchName : str) :
  test (WI "hotfix" >> D) branchName = true ->
  test (WI "fix" >> D) branchName = true.
Proof.
  rewrite !test_spec. intros (b & w & rest & -> & H).
  change (WI "hotfix")
    with (ChrI 104 >> ChrI 111 >> ChrI 116 >> WI "fix") in H.
  inversion H as [| | | | | e a1 b1 w1 w2 H1 H2 | | | | |]; subst.
  inversion H1 as [| | | | | ? ? ? h u1 _ Hu1 | | | | |]; subst.
  inversion Hu1 as [| | | | | ? ? ? o u2 _ Hu2 | | | | |]; subst.
  inversion Hu2 as [| | | | | ? ? ? t u3 _ Hu3 | | | | |]; subst.
  exists (b ++ h ++ o ++ t), (u3 ++ w2), rest. split.
  - now rewrite <- !app_assoc.
  - now constructor.
Qed.

(* ================================================================== *)
(** * Facts about the categorizer *)
(* ================================================================== *)

Lemma firstCategory_In (table : list (ChangeCategory * list regex)) (p : str)
    (c : ChangeCategory) :
  firstCategory table p = Some c -> In c (List.map fst table).
Proof.
  induction table as [| [k ps] table IH]; simpl; [discriminate |].
  destruct (matchesAny ps p); [intros [= <-]; auto | auto].
Qed.

(** The table order, spelled out. *)
Lemma categorizeFileByPath_eq (p : str) :
  categorizeFileByPath p =
    if matchesAny configurationPatterns p then Some (lit "configuration")
    else if matchesAny testingPatterns p then Some (lit "testing")
    else if matchesAny documentationPatterns p then Some (lit "documentation")
    else None.
Proof.
  unfold categorizeFileByPath, FILE_PATTERNS. cbn [firstCategory].
  change (matchesAny [] p) with false. cbn iota. reflexivity.
Qed.

Lemma categorizeFileByPath_truthy (p : str) (c : ChangeCategory) :
  categorizeFileByPath p = Some c -> truthy (Some c) = true.
Proof.
  rewrite categorizeFileByPath_eq.
  destruct (matchesAny configurationPatterns p); [intros [= <-]; reflexivity |].
  destruct (matchesAny testingPatterns p); [intros [= <-]; reflexivity |].
  destruct (matchesAny documentationPatterns p); [intros [= <-]; reflexivity |].
  discriminate.
Qed.

(** Path patterns first, the change type next. *)
Lemma categorizeChange_eq (file : ChangedFile) :
  categorizeChange file =
    match categorizeFileByPath (path file) with
    | Some c => c
    | None =>
        if str_eqb (changeType file) (lit "added") then lit "new-feature"
        else if str_eqb (changeType file) (lit "deleted") then lit "deletion"
        else if str_eqb (changeType file) (lit "renamed") then lit "refactoring"
        else lit "modified-logic"
    end.
Proof.
  unfold categorizeChange. cbv zeta.
  destruct (categorizeFileByPath (path file)) as [c |] eqn:E; [| reflexivity].
  now rewrite (categorizeFileByPath_truthy _ E).
Qed.

(** Every category the categorizer assigns is one of the seven. *)
Lemma categorizeChange_known (file : ChangedFile) :
  In (categorizeChange file) categoryOrder.
Proof.
  rewrite categorizeChange_eq, categorizeFileByPath_eq.
  destruct (matchesAny configurationPatterns _); [simpl; tauto |].
  destruct (matchesAny testingPatterns _); [simpl; tauto |].
  destruct (matchesAny documentationPatterns _); [simpl; tauto |].
  destruct (str_eqb _ (lit "added")); [simpl; tauto |].
  destruct (str_eqb _ (lit "deleted")); [simpl; tauto |].
  destruct (str_eqb _ (lit "renamed")); simpl; tauto.
Qed.

(** ** The grouping loop *)

Lemma groupFile_nil (file : ChangedFile) :
  groupFile [] file = [(categorizeChange file, [file])].
Proof.
  unfold groupFile. simpl. now rewrite str_eqb_refl.
Qed.

Lemma groupFile_cons (k : str) (v : list ChangedFile)
    (g : Map (list ChangedFile)) (file : ChangedFile) :
  groupFile ((k, v) :: g) file =
    if str_eqb k (categorizeChange file) then (k, v ++ [file]) :: g
    else (k, v) :: groupFile g file.
Proof.
  unfold groupFile. cbv zeta. simpl has.
  destruct (str_eqb k (categorizeChange file)) eqn:E; simpl.
  - now rewrite E.
  - destruct (has g (categorizeChange file)); simpl; rewrite ?E; simpl; rewrite ?E.
    + destruct (get g _); simpl; rewrite ?E; reflexivity.
    + destruct (get (set g _ []) _); simpl; rewrite ?E; reflexivity.
Qed.

Lemma has_In (V : Type) (g : Map V) (k : str) :
  has g k = true <-> In k (List.map fst g).
Proof.
  induction g as [| [k' v] g IH]; simpl; [split; [discriminate | tauto] |].
  rewrite orb_true_iff, IH, str_eqb_eq. tauto.
Qed.

Lemma groupFile_keys (g : Map (list ChangedFile)) (file : ChangedFile) :
  List.map fst (groupFile g file) =
    if has g (categorizeChange file) then List.map fst g
    else List.map fst g ++ [categorizeChange file].
Proof.
  induction g as [| [k v] g IH]; [now rewrite groupFile_nil |].
  rewrite groupFile_cons. simpl has.
  destruct (str_eqb k (categorizeChange file)); simpl; [reflexivity |].
  rewrite IH. now destruct (has g _).
Qed.

Lemma groupFile_perm (g : Map (list ChangedFile)) (file : ChangedFile) :
  Permutation (List.concat (List.map snd (groupFile g file)))
              (file :: List.concat (List.map snd g)).
Proof.
  induction g as [| [k v] g IH]; [now rewrite groupFile_nil |].
  rewrite groupFile_cons.
  destruct (str_eqb k (categorizeChange file)); simpl.
  - rewrite <- app_assoc. symmetry. apply Permutation_middle.
  - rewrite IH. symmetry. apply Permutation_middle.
Qed.

Lemma groupFile_ok (g : Map (list ChangedFile)) (file : ChangedFile) :
  Forall groupOk g -> Forall groupOk (groupFile g file).
Proof.
  induction g as [| [k v] g IH]; intro H.
  - rewrite groupFile_nil. repeat constructor; simpl; congruence.
  - rewrite groupFile_cons. inversion H as [| ? ? [Hne Hv] Hg]; subst.
    destruct (str_eqb k (categorizeChange file)) eqn:E.
    + apply str_eqb_eq in E. constructor; [| assumption].
      split; simpl in *.
      * destruct v; discriminate.
      * apply Forall_app. split; [assumption |]. now repeat constructor.
    + constructor; [now split | now apply IH].
Qed.

Lemma grouped_inv (files : list ChangedFile) :
  NoDup (List.map fst (groupFiles files))
  /\ Permutation (List.concat (List.map snd (groupFiles files))) files
  /\ Forall groupOk (groupFiles files).
Proof.
  unfold groupFiles.
  induction files as [| file files (ND & Perm & Ok)] using rev_ind.
  - simpl. repeat split; constructor.
  - rewrite fold_left_app. simpl. repeat split.
    + rewrite groupFile_keys.
      destruct (has _ (categorizeChange file)) eqn:E; [assumption |].
      apply NoDup_app; repeat split; auto.
      * repeat constructor. simpl; tauto.
      * intros x Hx [<- | []]. apply has_In in Hx. congruence.
    + rewrite groupFile_perm, Perm. apply Permutation_cons_append.
    + now apply groupFile_ok.
Qed.

(** The keys of the groups are the categories present in the diff. *)
Lemma grouped_keys (files : list ChangedFile) (k : str) :
  In k (List.map fst (groupFiles files))
  <-> exists f, In f files /\ categorizeChange f = k.
Proof.
  destruct (grouped_inv files) as (_ & Perm & Ok).
  rewrite Forall_forall in Ok. split.
  - intro H. apply in_map_iff in H. destruct H as ([k' v] & <- & He).
    destruct (Ok _ He) as [Hne Hv]. simpl in *.
    destruct v as [| f v]; [congruence |].
    exists f. split; [| now inversion Hv].
    apply (Permutation_in _ Perm), in_concat.
    exists (f :: v). split; [| simpl; auto].
    apply in_map_iff. now exists (k', f :: v).
  - intros (f & Hf & <-).
    apply (Permutation_in _ (Permutation_sym Perm)), in_concat in Hf.
    destruct Hf as (v & Hv & Hfv). apply in_map_iff in Hv.
    destruct Hv as ([k' v'] & <- & He). simpl in *.
    destruct (Ok _ He) as [_ Hall]. rewrite Forall_forall in Hall.
    rewrite (Hall _ Hfv). apply in_map_iff. now exists (k', v').
Qed.

(** ** Lists sorted by a strict order *)

Lemma NoDup_app_disjoint (A : Type) (l l' : list A) (x : A) :
  NoDup (l ++ l') -> In x l -> ~ In x l'.
Proof.
  induction l as [| y l IH]; simpl; [tauto |].
  intros ND [<- | Hx] Hx'.
  - inversion ND as [| ? ? Hy _]; subst. apply Hy, in_or_app. now right.
  - inversion ND; subst. now apply IH.
Qed.

Lemma StronglySorted_filter (A : Type) (R : A -> A -> Prop) (p : A -> bool)
    (l : list A) :
  StronglySorted R l -> StronglySorted R (filter p l).
Proof.
  induction 1 as [| x l S IH H]; simpl; [constructor |].
  destruct (p x); [| assumption].
  constructor; [assumption |].
  rewrite Forall_forall in *. intros y Hy. apply filter_In in Hy. now apply H.
Qed.

Section SortedUnique.
Variable A : Type.
Variable lt : A -> A -> Prop.
Hypothesis lt_irrefl : forall a, ~ lt a a.
Hypothesis lt_asym : forall a b, lt a b -> ~ lt b a.

Lemma sorted_unique (l1 l2 : list A) :
  StronglySorted lt l1 -> StronglySorted lt l2 ->
  (forall x, In x l1 <-> In x l2) -> l1 = l2.
Proof.
  intro S1. revert l2.
  induction S1 as [| x l1 S1 IH H1]; intros l2 S2 Hin.
  - destruct l2 as [| y l2]; [reflexivity |].
    exfalso. apply (Hin y). simpl; auto.
  - destruct S2 as [| y l2 S2 H2].
    + exfalso. apply (Hin x). simpl; auto.
    + rewrite Forall_forall in H1, H2.
      assert (x = y) as <-.
      { destruct (proj1 (Hin x) (or_introl eq_refl)) as [E | Hx]; [now symmetry |].
        destruct (proj2 (Hin y) (or_introl eq_refl)) as [E | Hy]; [assumption |].
        exfalso. apply (lt_asym (H1 _ Hy)), H2, Hx. }
      f_equal. apply IH; [assumption |].
      intro z. split; intro Hz.
      * destruct (proj1 (Hin z) (or_intror Hz)) as [<- | ?]; [| assumption].
        exfalso. apply (lt_irrefl (H1 _ Hz)).
      * destruct (proj2 (Hin z) (or_intror Hz)) as [<- | ?]; [| assumption].
        exfalso. apply (lt_irrefl (H2 _ Hz)).
Qed.

End SortedUnique.

(** ** The final order of the categories *)

Lemma importance_inj (a b : ChangeCategory) :
  In a categoryOrder -> In b categoryOrder ->
  importance a = importance b -> a = b.
Proof.
  unfold categoryOrder. simpl In.
  intros Ha Hb.
  repeat (destruct Ha as [<- | Ha]; [| ]); try contradiction;
    repeat (destruct Hb as [<- | Hb]; [| ]); try contradiction;
    vm_compute; intro E; try reflexivity; discriminate E.
Qed.

Lemma categoryOrder_sorted :
  StronglySorted (fun a b => (importance a < importance b)%Z) categoryOrder.
Proof.
  unfold categoryOrder.
  repeat (constructor; [| repeat (constructor; [reflexivity |]); constructor]).
  constructor.
Qed.

Lemma sort_categories (keys : list ChangeCategory) :
  NoDup keys -> (forall k, In k keys -> In k categoryOrder) ->
  sort beforeCategory keys
  = filter (fun c => List.existsb (fun k => str_eqb k c) keys) categoryOrder.
Proof.
  intros ND Known.
  apply sorted_unique with (lt := fun a b => (importance a < importance b)%Z).
  - intros a; lia.
  - intros a b; lia.
  - assert (S : StronglySorted (fun a b => beforeCategory b a = false)
                               (sort beforeCategory keys)).
    { apply sort_sorted with (P := fun _ => True); unfold beforeCategory.
      - intros a b _ _. rewrite Z.ltb_lt, Z.ltb_ge. lia.
      - intros a b c _ _ _. rewrite !Z.ltb_ge. lia.
      - now apply Forall_forall. }
    assert (ND' : NoDup (sort beforeCategory keys))
      by (apply (Permutation_NoDup (Permutation_sym (sort_perm _ keys))), ND).
    assert (K' : forall k, In k (sort beforeCategory keys) -> In k categoryOrder)
      by (intros k Hk; apply Known; now apply sort_In in Hk).
    revert S ND' K'. generalize (sort beforeCategory keys). intros l S.
    induction S as [| x l S IH H]; intros ND' K'; constructor.
    + inversion ND'; subst. apply IH; [assumption |]. intros; apply K'; simpl; auto.
    + inversion ND' as [| ? ? Hx _]; subst.
      rewrite Forall_forall in *. intros y Hy.
      specialize (H y Hy). unfold beforeCategory in H. apply Z.ltb_ge in H.
      destruct (Z.eq_dec (importance x) (importance y)) as [E |]; [| lia].
      apply importance_inj in E; [subst; contradiction | |]; apply K'; simpl; auto.
  - apply StronglySorted_filter, categoryOrder_sorted.
  - intro x. rewrite sort_In, filter_In, existsb_exists. split.
    + intro Hx. split; [now apply Known |]. exists x. now rewrite str_eqb_refl.
    + intros (_ & k & Hk & E). apply str_eqb_eq in E. now subst.
Qed.

(* ================================================================== *)
(** * The categorizer: partition, order, descriptions *)
(* ================================================================== *)

Lemma NoDup_concat_disjoint (ls : list (list str)) :
  NoDup (List.concat ls) -> pairwiseDisjoint ls.
Proof.
  induction ls as [| l ls IH]; intros ND i j a b Hij Ha Hb p Hpa Hpb.
  - now destruct i.
  - simpl in ND. destruct i as [| i], j as [| j]; simpl in Ha, Hb.
    + congruence.
    + injection Ha as <-. apply (NoDup_app_disjoint _ _ p ND Hpa).
      apply in_concat. exists b. split; [| assumption].
      eapply nth_error_In; eauto.
    + injection Hb as <-. apply (NoDup_app_disjoint _ _ p ND Hpb).
      apply in_concat. exists a. split; [| assumption].
      eapply nth_error_In; eauto.
    + apply (IH (NoDup_app_remove_l _ _ ND) i j a b ltac:(congruence) Ha Hb p); auto.
Qed.

Lemma categorizeChanges_perm (input : list ChangedFile) :
  Permutation (categorizeChanges input)
    (List.map (fun '(category, categoryFiles) =>
                 {| category := category;
                    description := generateCategoryDescription category categoryFiles;
                    files := List.map path categoryFiles |})
              (groupFiles input)).
Proof. apply sort_perm. Qed.

Lemma categorizeChanges_paths (input : list ChangedFile) :
  Permutation (List.concat (List.map files (categorizeChanges input)))
              (List.map path input).
Proof.
  rewrite (Permutation_concat (Permutation_map files (categorizeChanges_perm input))).
  rewrite map_map.
  destruct (grouped_inv input) as (_ & Perm & _).
  rewrite <- (Permutation_map path Perm), concat_map, map_map.
  apply Permutation_concat.
  erewrite map_ext; [reflexivity |]. now intros [k v].
Qed.

(** C1, as amended: the file lists of [categorizeChanges] together hold
    the paths of the input, each as often as the input has it (so every
    input entry lands in exactly one list, none is dropped or repeated);
    when the paths of the input are pairwise distinct, no path occurs
    twice in the lists and the lists are pairwise disjoint. *)
Theorem categorizeChanges_partition (input : list ChangedFile) :
  Permutation (List.concat (List.map files (categorizeChanges input)))
              (List.map path input)
  /\ (NoDup (List.map path input) ->
      NoDup (List.concat (List.map files (categorizeChanges input)))
      /\ pairwiseDisjoint (List.map files (categorizeChanges input))).
Proof.
  split; [apply categorizeChanges_paths |].
  intro ND.
  assert (ND' : NoDup (List.concat (List.map files (categorizeChanges input))))
    by (apply (Permutation_NoDup (Permutation_sym (categorizeChanges_paths input))), ND).
  split; [exact ND' | now apply NoDup_concat_disjoint].
Qed.

Lemma categorizeChanges_partition_witness :
  pairwiseDisjoint (List.map files (categorizeChanges [readme; src_x])).
Proof.
  apply (proj2 (categorizeChanges_partition [readme; src_x])).
  repeat constructor; simpl; intuition discriminate.
Defined.

(** C1, as the specification words it, fails when the input names one
    path twice with change types of different categories: the path is
    then in two lists. *)
Lemma partitionClaim_counterexample : ~ partitionClaim [a_added; a_deleted].
Proof.
  intros [D _].
  apply (D 0%nat 1%nat [lit "a.ts"] [lit "a.ts"]) with (p := lit "a.ts");
    try reflexivity; try discriminate; simpl; auto.
Qed.

Lemma categorizeChanges_categories (input : list ChangedFile) :
  List.map category (categorizeChanges input)
  = sort beforeCategory (List.map fst (groupFiles input)).
Proof.
  unfold categorizeChanges. cbv zeta.
  change byImportance
    with (fun a b : CategorizedChange => beforeCategory (category a) (category b)).
  rewrite sort_map, map_map. f_equal.
  apply map_ext. now intros [k v].
Qed.

(** C5: the categories of the output are exactly the categories present
    in the input, in the order of the fixed priority list (so an absent
    category has no entry); the scenario of the specification yields the
    new-feature entry, then the documentation entry, with the singular
    ["Added 1 new file (+40 lines)"]. *)
Theorem categorizeChanges_order (input : list ChangedFile) :
  List.map category (categorizeChanges input)
  = filter (fun c => List.existsb (fun f => str_eqb (categorizeChange f) c) input)
           categoryOrder
  /\ categorizeChanges [readme; src_x]
     = [ {| category := lit "new-feature";
            description := lit "Added 1 new file (+40 lines)";
            files := [lit "src/x.ts"] |};
         {| category := lit "documentation";
            description := lit "Documentation updated";
            files := [lit "README.md"] |} ].
Proof.
  split; [| reflexivity].
  rewrite categorizeChanges_categories.
  destruct (grouped_inv input) as (ND & _ & _).
  rewrite sort_categories.
  - apply filter_ext. intro c. apply eq_iff_eq_true.
    rewrite !existsb_exists. split.
    + intros (k & Hk & E). apply grouped_keys in Hk.
      destruct Hk as (f & Hf & <-). now exists f.
    + intros (f & Hf & E). exists (categorizeChange f). split; [| assumption].
      apply grouped_keys. now exists f.
  - exact ND.
  - intros k Hk. apply grouped_keys in Hk. destruct Hk as (f & _ & <-).
    apply categorizeChange_known.
Qed.

(** The seven explicit cases never produce the text of the default case. *)
Lemma explicit_description (c : ChangeCategory) (group : list ChangedFile) (n : nat) :
  In c categoryOrder ->
  generateCategoryDescription c group <> fallbackDescription n.
Proof.
  unfold categoryOrder. simpl In. intros Hc E.
  apply (f_equal (fun s => List.hd 0 s)) in E.
  unfold generateCategoryDescription, fallbackDescription in E. cbv zeta in E.
  destruct (1 <? List.length group)%nat;
    repeat (destruct Hc as [<- | Hc]; [lazy in E; discriminate E |]);
    contradiction.
Qed.

(** C10: every entry of [categorizeChanges] carries one of the seven
    category names, its description is the one [generateCategoryDescription]
    computes for that name from a non-empty group of input files of that
    category, and it is never the text of the default case. *)
Theorem fallback_unreachable (input : list ChangedFile) (c : CategorizedChange) :
  In c (categorizeChanges input) ->
  In (category c) categoryOrder
  /\ (exists group,
        group <> []
        /\ Forall (fun f => In f input /\ categorizeChange f = category c) group
        /\ description c = generateCategoryDescription (category c) group
        /\ files c = List.map path group)
  /\ forall n, description c <> fallbackDescription n.
Proof.
  intro Hc. apply (Permutation_in _ (categorizeChanges_perm input)) in Hc.
  apply in_map_iff in Hc. destruct Hc as ([k v] & <- & He). simpl.
  destruct (grouped_inv input) as (_ & Perm & Ok).
  rewrite Forall_forall in Ok. destruct (Ok _ He) as [Hne Hv]. simpl in Hne, Hv.
  assert (Hk : In k categoryOrder).
  { destruct v as [| f v]; [congruence |]. inversion Hv as [| ? ? <- _].
    apply categorizeChange_known. }
  split; [exact Hk |]. split.
  - exists v. repeat split; auto.
    rewrite Forall_forall in *. intros f Hf. split; [| now apply Hv].
    apply (Permutation_in _ Perm), in_concat. exists v. split; [| assumption].
    apply in_map_iff. now exists (k, v).
  - intro n. now apply explicit_description.
Qed.

Lemma fallback_unreachable_witness :
  In (category (List.hd {| category := []; description := []; files := [] |}
                        (categorizeChanges [readme; src_x])))
     categoryOrder.
Proof.
  apply (fallback_unreachable [readme; src_x]).
  vm_compute. auto.
Defined.

(** C4: the path patterns are consulted before the change type (the
    change type decides only when no pattern matches), the table in the
    order configuration, testing, documentation, the first match winning;
    [src/app.test.ts], added, is therefore [testing], not [new-feature]. *)
Theorem path_pattern_precedence :
  (forall file,
      categorizeChange file =
        match categorizeFileByPath (path file) with
        | Some c => c
        | None =>
            if str_eqb (changeType file) (lit "added") then lit "new-feature"
            else if str_eqb (changeType file) (lit "deleted") then lit "deletion"
            else if str_eqb (changeType file) (lit "renamed") then lit "refactoring"
            else lit "modified-logic"
        end)
  /\ (forall filePath,
        categorizeFileByPath filePath =
          if matchesAny configurationPatterns filePath then Some (lit "configuration")
          else if matchesAny testingPatterns filePath then Some (lit "testing")
          else if matchesAny documentationPatterns filePath
               then Some (lit "documentation")
          else None)
  /\ path app_test = lit "src/app.test.ts"
  /\ changeType app_test = lit "added"
  /\ categorizeChange app_test = lit "testing"
  /\ categorizeChange app_test <> lit "new-feature".
Proof.
  split; [exact categorizeChange_eq |].
  split; [exact categorizeFileByPath_eq |].
  repeat (split; [reflexivity |]).
  vm_compute. discriminate.
Qed.

(** C9: on an empty file list both entry points return the empty
    sequence, whatever the limit. *)
Theorem empty_input :
  categorizeChanges [] = []
  /\ forall limit : option Z, identifyKeyFiles [] limit = [].
Proof.
  split; [reflexivity |].
  intro limit. unfold identifyKeyFiles, slice0. simpl rankedFiles.
  now rewrite firstn_nil.
Qed.

(** C3 fails on the code: [/fix[\/\-_]/i] stands before
    [/hotfix[\/\-_]/i] in [INTENT_PATTERNS] and is not anchored, so a
    branch named [hotfix/urgent-patch] is resolved by the [fix] entry; no
    branch name at all is resolved by the [hotfix] entry. *)
Theorem hotfix_resolves_to_fix :
  (forall commits input added removed,
      inferIntent (mkDiff "hotfix/urgent-patch" commits input added removed)
      = lit "fix a bug or issue: urgent patch")
  /\ (forall commits input added removed,
        inferIntent (mkDiff "hotfix/urgent-patch" commits input added removed)
        <> lit "apply an urgent fix: urgent patch")
  /\ (forall branchName,
        option_map snd (firstIntent INTENT_PATTERNS branchName)
        <> Some (lit "apply an urgent fix")).
Proof.
  split; [reflexivity |]. split; [intros; vm_compute; discriminate |].
  intros branchName. unfold INTENT_PATTERNS. cbn [firstIntent].
  destruct (test (WI "fix" >> D) branchName) eqn:Fix.
  - clear Fix. destruct (test _ branchName); vm_compute; discriminate.
  - destruct (test (WI "hotfix" >> D) branchName) eqn:Hotfix;
      [apply hotfix_shadowed in Hotfix; congruence |].
    repeat (match goal with
            | |- context [if test ?p branchName then _ else _] =>
                destruct (test p branchName)
            end; [vm_compute; discriminate |]).
    discriminate.
Qed.

Lemma firstIntent_none (table : list (regex * str)) (branchName : str) :
  (forall pattern intent,
      In (pattern, intent) table -> test pattern branchName = false) ->
  firstIntent table branchName = None.
Proof.
  induction table as [| [pattern intent] table IH]; intro H; [reflexivity |].
  simpl. rewrite (H pattern intent) by (simpl; auto).
  apply IH. intros; eapply H; simpl; eauto.
Qed.

(** C6: when no intent pattern matches the branch name and the commit
    list is not empty, the intent is ["Based on commits: "] followed by
    the message of the last commit of the list (the oldest). *)
Theorem inferIntent_commits (diff : GitDiff.t)
    (newer : list BranchCommit) (oldest : BranchCommit) :
  (forall pattern intent,
      In (pattern, intent) INTENT_PATTERNS ->
      test pattern (currentBranch (GitDiff.context diff)) = false) ->
  GitDiff.commits diff = newer ++ [oldest] ->
  inferIntent diff = lit "Based on commits: " ++ message oldest.
Proof.
  intros Hno Hc. unfold inferIntent. cbv zeta.
  rewrite (firstIntent_none _ _ Hno), Hc.
  destruct newer as [| c newer]; [reflexivity |].
  simpl app. cbv iota. now rewrite last_last.
Qed.

Lemma inferIntent_commits_witness :
  inferIntent (mkDiff "main" [ {| message := lit "polish" |};
                               {| message := lit "first draft" |} ] [] 0 0)
  = lit "Based on commits: first draft".
Proof.
  apply (inferIntent_commits
           (mkDiff "main" [ {| message := lit "polish" |};
                            {| message := lit "first draft" |} ] [] 0 0)
           [ {| message := lit "polish" |} ] {| message := lit "first draft" |}).
  - intros pattern intent H. simpl in H.
    repeat (destruct H as [[= <- <-] | H]; [reflexivity |]). contradiction.
  - reflexivity.
Defined.

(** C7: the overview opens with the size descriptor of
    [totalLines = stats.linesAdded + stats.linesRemoved]: [small] below
    50, [moderate] from 50 and below 200, [substantial] from 200 and below
    500, [large] from 500 on; 60 lines are [moderate]. *)
Theorem generateOverview_size (toLowerCase : str -> str) (diff : GitDiff.t) :
  let totalLines :=
    DiffStats.linesAdded (GitDiff.stats diff)
    + DiffStats.linesRemoved (GitDiff.stats diff) in
  exists sizeDescriptor rest,
    generateOverview toLowerCase diff
    = lit "A " ++ sizeDescriptor ++ lit " change across " ++ rest
    /\ (totalLines < 50 -> sizeDescriptor = lit "small")
    /\ (50 <= totalLines < 200 -> sizeDescriptor = lit "moderate")
    /\ (200 <= totalLines < 500 -> sizeDescriptor = lit "substantial")
    /\ (500 <= totalLines -> sizeDescriptor = lit "large")
    /\ (totalLines = 60 -> sizeDescriptor = lit "moderate").
Proof.
  intro totalLines. unfold generateOverview. cbv zeta. fold totalLines.
  destruct (N.ltb_spec totalLines 50); [| destruct (N.ltb_spec totalLines 200);
    [| destruct (N.ltb_spec totalLines 500)]];
    eexists; eexists; (split; [reflexivity |]); repeat split; intros; lia.
Qed.

Lemma generateOverview_size_witness :
  exists rest,
    generateOverview toLowerCaseASCII (mkDiff "main" [] [readme; src_x] 45 15)
    = lit "A " ++ lit "moderate" ++ lit " change across " ++ rest.
Proof.
  destruct (generateOverview_size toLowerCaseASCII
              (mkDiff "main" [] [readme; src_x] 45 15))
    as (sizeDescriptor & rest & E & _ & _ & _ & _ & H60).
  exists rest. rewrite <- (H60 eq_refl). exact E.
Defined.

(* ================================================================== *)
(** * Path patterns and intent patterns *)
(* ================================================================== *)

Lemma Matches_Seq_inv (e : bool) (a b : regex) (w : str) :
  Matches e (Seq a b) w ->
  exists w1 w2, w = w1 ++ w2 /\ Matches (e && isEmpty w2) a w1 /\ Matches e b w2.
Proof. intro H. inversion H; subst. eauto. Qed.

Lemma Matches_Alt_inv (e : bool) (a b : regex) (w : str) :
  Matches e (Alt a b) w -> Matches e a w \/ Matches e b w.
Proof. intro H. inversion H; subst; auto. Qed.

Lemma Matches_word (e : bool) (cs w : str) :
  Matches e (word cs) w <-> w = cs.
Proof.
  revert e w. induction cs as [| c cs IH]; intros e w; simpl.
  - split; [intro H; now inversion H | intros ->; constructor].
  - destruct cs as [| c' cs].
    + split; [intro H; now inversion H | intros ->; constructor].
    + split.
      * intro H. apply Matches_Seq_inv in H. destruct H as (w1 & w2 & -> & H1 & H2).
        inversion H1; subst. apply IH in H2. now subst.
      * intros ->. apply (@MSeq e (Chr c) (word (c' :: cs)) [c] (c' :: cs));
          [constructor | now apply IH].
Qed.

Lemma Matches_wordI_self (e : bool) (cs : str) : Matches e (wordI cs) cs.
Proof.
  revert e. induction cs as [| c cs IH]; intro e; simpl; [constructor |].
  destruct cs as [| c' cs]; [now constructor |].
  apply (@MSeq e (ChrI c) (wordI (c' :: cs)) [c] (c' :: cs)); [now constructor | apply IH].
Qed.

(** A literal pattern finds its occurrences. *)
Lemma test_word (s p : str) : test (word s) p = true <-> contains p s.
Proof.
  rewrite test_spec. unfold contains. split.
  - intros (b & w & rest & -> & H). apply Matches_word in H. subst. eauto.
  - intros (b & rest & ->). exists b, s, rest. split; [reflexivity |].
    now apply Matches_word.
Qed.

Lemma test_intro (r : regex) (b w rest : str) :
  Matches (isEmpty rest) r w -> test r (b ++ w ++ rest) = true.
Proof. intro H. apply test_spec. eauto. Qed.

Lemma requires_Matches (cs : list char) (r : regex) : forall e w,
  requires cs r = true -> Matches e r w -> exists c, In c w /\ In c cs.
Proof.
  induction r; simpl; intros e w R H; try discriminate.
  - inversion H.
  - inversion H as [| | | | ? c ? Hin | | | | | |]; subst.
    exists c. split; [simpl; auto |].
    rewrite forallb_forall in R. specialize (R c Hin).
    apply existsb_exists in R. destruct R as (x & Hx & E).
    apply N.eqb_eq in E. now subst.
  - apply Matches_Seq_inv in H. destruct H as (w1 & w2 & -> & H1 & H2).
    apply orb_true_iff in R. destruct R as [R | R].
    + destruct (IHr1 _ _ R H1) as (c & Hc & Hcs). exists c. split; [| assumption].
      apply in_or_app; auto.
    + destruct (IHr2 _ _ R H2) as (c & Hc & Hcs). exists c. split; [| assumption].
      apply in_or_app; auto.
  - apply andb_true_iff in R. destruct R as [R1 R2].
    apply Matches_Alt_inv in H. destruct H; eauto.
Qed.

Lemma test_requires (cs : list char) (r : regex) (p : str) :
  requires cs r = true -> test r p = true -> exists c, In c p /\ In c cs.
Proof.
  intros R H. apply test_spec in H. destruct H as (b & w & rest & -> & H).
  destruct (requires_Matches _ R H) as (c & Hc & Hcs).
  exists c. split; [| assumption]. apply in_or_app. right. apply in_or_app. now left.
Qed.

Lemma matchesAny_intro (patterns : list regex) (pattern : regex) (p : str) :
  In pattern patterns -> test pattern p = true -> matchesAny patterns p = true.
Proof. intros Hin H. apply existsb_exists. eauto. Qed.

Lemma contains_app (p s1 s2 s3 : str) :
  contains p (s1 ++ s2 ++ s3) -> contains p s2.
Proof.
  intros (b & rest & ->). exists (b ++ s1), (s3 ++ rest).
  now rewrite <- !app_assoc.
Qed.

Lemma test_wordI_contains (s p : str) : contains p s -> test (wordI s) p = true.
Proof.
  intros (b & rest & ->). apply test_intro, Matches_wordI_self.
Qed.

(** X7: a path with a [.test.] or [.spec.] segment, which
    [identifyKeyFiles] scores by 0.7, is categorized as configuration or as
    testing and never as documentation: the factors 0.7 and 0.3 never apply
    to the same file. *)
Theorem test_segment_is_never_documentation (filePath : str) :
  test testFilePattern filePath = true ->
  (categorizeFileByPath filePath = Some (lit "configuration")
   \/ categorizeFileByPath filePath = Some (lit "testing"))
  /\ isCategory (categorizeFileByPath filePath) (lit "documentation") = false.
Proof.
  intro H.
  assert (T : matchesAny testingPatterns filePath = true).
  { apply test_spec in H. destruct H as (b & w & rest & -> & H).
    unfold testFilePattern in H.
    apply Matches_Seq_inv in H. destruct H as (w1 & w' & -> & H1 & H).
    apply Matches_Seq_inv in H. destruct H as (w2 & w3 & -> & H2 & H3).
    apply Matches_word in H1, H3. subst w1 w3.
    apply Matches_Alt_inv in H2.
    destruct H2 as [H2 | H2]; apply Matches_word in H2; subst w2.
    - apply matchesAny_intro with (W ".test."); [simpl; tauto |].
      apply test_word. now exists b, rest.
    - apply matchesAny_intro with (W ".spec."); [simpl; tauto |].
      apply test_word. now exists b, rest. }
  rewrite categorizeFileByPath_eq, T.
  destruct (matchesAny configurationPatterns filePath); auto.
Qed.

(** X8: a path that contains [vitest.config] is categorized as
    configuration, since it contains [vite]; the pattern [/vitest\.config/]
    of the testing list never decides a category. *)
Theorem vitest_config_is_configuration (filePath : str) :
  test (W "vitest.config") filePath = true ->
  categorizeFileByPath filePath = Some (lit "configuration").
Proof.
  intro H. apply test_word in H.
  assert (C : matchesAny configurationPatterns filePath = true).
  { apply matchesAny_intro
      with (WI "webpack" |: WI "rollup" |: WI "vite" |: WI "esbuild");
      [simpl; tauto |].
    apply (@contains_app filePath [] (lit "vite") (lit "st.config")) in H.
    destruct H as (b & rest & ->).
    apply test_intro. apply MAltR, MAltR, MAltL, Matches_wordI_self. }
  now rewrite categorizeFileByPath_eq, C.
Qed.

(** X9: every pattern of [INTENT_PATTERNS] asks for one of [/], [-],
    [_]; a branch name without any of them matches none, and the intent then
    comes from the commits or from the files. *)
Theorem intent_needs_a_delimiter (diff : GitDiff.t) :
  (forall c, In c (currentBranch (GitDiff.context diff)) -> ~ In c delimiters) ->
  firstIntent INTENT_PATTERNS (currentBranch (GitDiff.context diff)) = None.
Proof.
  intro H. apply firstIntent_none. intros pattern intent Hin.
  destruct (test pattern _) eqn:T; [| reflexivity].
  exfalso.
  assert (R : requires delimiters pattern = true).
  { assert (A : List.forallb (fun e => requires delimiters (fst e)) INTENT_PATTERNS = true)
      by reflexivity.
    rewrite forallb_forall in A. apply (A _ Hin). }
  destruct (test_requires _ _ _ R T) as (c & Hc & Hd). exact (H c Hc Hd).
Qed.

Lemma test_segment_is_never_documentation_witness :
  (categorizeFileByPath (lit "docs/api.spec.md") = Some (lit "configuration")
   \/ categorizeFileByPath (lit "docs/api.spec.md") = Some (lit "testing"))
  /\ isCategory (categorizeFileByPath (lit "docs/api.spec.md"))
       (lit "documentation") = false.
Proof.
  apply test_segment_is_never_documentation. reflexivity.
Defined.

Lemma vitest_config_is_configuration_witness :
  categorizeFileByPath (lit "vitest.config.ts") = Some (lit "configuration").
Proof.
  apply vitest_config_is_configuration. reflexivity.
Defined.

Lemma intent_needs_a_delimiter_witness :
  firstIntent INTENT_PATTERNS
    (currentBranch (GitDiff.context (mkDiff "bugfixes" [] [] 0 0))) = None.
Proof.
  apply intent_needs_a_delimiter. intros c H Hd. simpl in H, Hd.
  repeat (destruct H as [<- | H];
          [repeat (destruct Hd as [Hd | Hd]; [discriminate |]); contradiction |]).
  contradiction.
Defined.

(* ================================================================== *)
(** * Intent inference *)
(* ================================================================== *)

Lemma split_not_nil (delim : char -> bool) (s : str) : split delim s <> [].
Proof.
  destruct s as [| c s]; simpl; [discriminate |].
  destruct (delim c); [discriminate |]. destruct (split delim s); discriminate.
Qed.

Lemma join_split (delim : char -> bool) (s : str) :
  join [32] (split delim s) = List.map (fun c => if delim c then 32 else c) s.
Proof.
  induction s as [| c s IH]; [reflexivity |].
  simpl. destruct (delim c).
  - pose proof (split_not_nil delim s) as N.
    destruct (split delim s) as [| seg rest]; [congruence |].
    simpl in *. now rewrite <- IH.
  - destruct (split delim s) as [| seg rest]; simpl in *.
    + now rewrite <- IH.
    + rewrite <- IH. now destruct rest.
Qed.

Lemma join_tl_split (s : str) :
  join [32] (slice1 (split isDelimiter s)) = spaced (afterFirstDelimiter s).
Proof.
  unfold slice1. induction s as [| c s IH]; [reflexivity |].
  simpl. destruct (isDelimiter c); simpl.
  - apply join_split.
  - rewrite <- IH. destruct (split isDelimiter s); reflexivity.
Qed.

Lemma spaced_free (s : str) (c : char) : In c (spaced s) -> isDelimiter c = false.
Proof.
  unfold spaced. intro H. apply in_map_iff in H. destruct H as (x & <- & _).
  destruct (isDelimiter x) eqn:E; [reflexivity | exact E].
Qed.

Lemma replaceAll_id (cls : char -> bool) (by_ s : str) :
  (forall c, In c s -> cls c = false) -> replaceAll cls by_ s = s.
Proof.
  unfold replaceAll. induction s as [| c s IH]; intro H; [reflexivity |].
  simpl. rewrite (H c) by (simpl; auto). simpl. f_equal.
  apply IH. intros; apply H; simpl; auto.
Qed.

Lemma dash_underscore_delimiter (c : char) :
  isDelimiter c = false -> List.existsb (N.eqb c) (lit "-_") = false.
Proof.
  unfold isDelimiter, delimiters.
  change (lit "/-_") with [47; 45; 95]. change (lit "-_") with [45; 95]. simpl.
  destruct (c =? 47)%N, (c =? 45)%N, (c =? 95)%N; simpl; congruence.
Qed.

(** X10: when the branch name matches an entry of [INTENT_PATTERNS],
    [inferIntent] returns the phrase of the first such entry, followed, when
    it is not empty, by what follows the first delimiter of the branch name
    (not the matched keyword) with every later delimiter turned into a
    space. *)
Theorem inferIntent_branch (diff : GitDiff.t) (pattern : regex) (intent : str) :
  firstIntent INTENT_PATTERNS (currentBranch (GitDiff.context diff))
  = Some (pattern, intent) ->
  let description := spaced (afterFirstDelimiter (currentBranch (GitDiff.context diff))) in
  inferIntent diff
  = match description with
    | [] => intent
    | _ :: _ => intent ++ lit ": " ++ description
    end
  /\ forall c, In c description -> isDelimiter c = false.
Proof.
  intros H description. split; [| apply spaced_free].
  unfold inferIntent. cbv zeta. rewrite H.
  change (fun c : N => List.existsb (N.eqb c) delimiters) with isDelimiter.
  rewrite join_tl_split. fold description.
  rewrite replaceAll_id
    by (intros c Hc; apply dash_underscore_delimiter, (spaced_free _ _ Hc)).
  now destruct description.
Qed.

Lemma inferIntent_branch_witness :
  inferIntent (mkDiff "my-feature/login_flow" [ {| message := lit "wip" |} ] [] 0 0)
  = lit "add new functionality: feature login flow".
Proof.
  apply (@inferIntent_branch
           (mkDiff "my-feature/login_flow" [ {| message := lit "wip" |} ] [] 0 0)
           (WI "feat" >> Opt (WI "ure") >> D) (lit "add new functionality")).
  reflexivity.
Defined.

Lemma includes_In (a : list str) (x : str) : includes a x = true <-> In x a.
Proof.
  unfold includes. rewrite existsb_exists. split.
  - intros (y & Hy & E). apply str_eqb_eq in E. now subst.
  - intro H. exists x. split; [assumption | apply str_eqb_refl].
Qed.

Lemma includes_present (input : list ChangedFile) (c : ChangeCategory) :
  includes (List.map category (categorizeChanges input)) c = present input c.
Proof.
  apply eq_iff_eq_true.
  rewrite includes_In, categorizeChanges_categories, sort_In, grouped_keys.
  unfold present. rewrite existsb_exists. split.
  - intros (f & Hf & <-). exists f. split; [assumption | apply str_eqb_refl].
  - intros (f & Hf & E). apply str_eqb_eq in E. eauto.
Qed.

(** X11: without a matching branch name and without commits,
    [inferIntent] depends only on which categories the files fall in: new
    feature first, then deletion, refactoring, configuration, and a default
    phrase otherwise. *)
Theorem inferIntent_fallback (diff : GitDiff.t) :
  firstIntent INTENT_PATTERNS (currentBranch (GitDiff.context diff)) = None ->
  GitDiff.commits diff = [] ->
  inferIntent diff
  = if present (GitDiff.files diff) (lit "new-feature")
    then lit "Add new functionality to the codebase"
    else if present (GitDiff.files diff) (lit "deletion")
    then lit "Remove unused code or features"
    else if present (GitDiff.files diff) (lit "refactoring")
    then lit "Improve code structure without changing behavior"
    else if present (GitDiff.files diff) (lit "configuration")
    then lit "Update project configuration"
    else lit "Make changes to the codebase".
Proof.
  intros H C. unfold inferIntent. cbv zeta. rewrite H, C.
  now rewrite !includes_present.
Qed.

Lemma inferIntent_fallback_witness :
  inferIntent (mkDiff "main" [] [readme; a_deleted] 5 8)
  = lit "Remove unused code or features".
Proof.
  rewrite (@inferIntent_fallback (mkDiff "main" [] [readme; a_deleted] 5 8));
    reflexivity.
Defined.

(* ================================================================== *)
(** * The categorizer in closed form *)
(* ================================================================== *)

Lemma filter_none (A : Type) (p : A -> bool) (l : list A) :
  (forall x, In x l -> p x = false) -> filter p l = [].
Proof.
  induction l as [| x l IH]; intro H; [reflexivity |].
  simpl. rewrite (H x) by (simpl; auto). apply IH. intros; apply H; simpl; auto.
Qed.

(** The grouping loop keeps every group equal to the files of its
    category met so far, in the order met. *)
Lemma groupFile_filesOf (g : Map (list ChangedFile)) (done : list ChangedFile)
    (file : ChangedFile) :
  NoDup (List.map fst g) ->
  Forall (fun e => snd e = filesOf done (fst e)) g ->
  (forall f, In f done -> categorizeChange f = categorizeChange file ->
             In (categorizeChange file) (List.map fst g)) ->
  Forall (fun e => snd e = filesOf (done ++ [file]) (fst e)) (groupFile g file).
Proof.
  unfold filesOf. induction g as [| [k v] g IH]; intros ND H Cov.
  - rewrite groupFile_nil. constructor; [| constructor]. simpl.
    rewrite filter_app. simpl. rewrite str_eqb_refl.
    rewrite filter_none; [reflexivity |].
    intros f Hf. apply str_eqb_neq. intro E. exact (Cov f Hf E).
  - rewrite groupFile_cons.
    inversion ND as [| ? ? Hk ND']; subst.
    inversion H as [| ? ? Hv Hg]; subst. simpl in Hv.
    destruct (str_eqb k (categorizeChange file)) eqn:E.
    + apply str_eqb_eq in E. subst k. constructor.
      * simpl. rewrite filter_app. simpl. rewrite str_eqb_refl. now rewrite Hv.
      * rewrite Forall_forall in *. intros [k' v'] He. simpl.
        rewrite filter_app. simpl.
        assert (N : str_eqb (categorizeChange file) k' = false).
        { apply str_eqb_neq. intros <-. apply Hk.
          apply in_map_iff. now exists (categorizeChange file, v'). }
        rewrite N, app_nil_r. exact (Hg _ He).
    + constructor.
      * simpl. rewrite filter_app. simpl.
        assert (N : str_eqb (categorizeChange file) k = false).
        { apply str_eqb_neq. intros <-. now rewrite str_eqb_refl in E. }
        now rewrite N, app_nil_r.
      * apply IH; auto. intros f Hf Ef.
        destruct (Cov f Hf Ef) as [Ek | Hin]; [| assumption].
        simpl in Ek. apply str_eqb_eq in Ek. congruence.
Qed.

Lemma groupFiles_filesOf (input : list ChangedFile) :
  Forall (fun e => snd e = filesOf input (fst e)) (groupFiles input).
Proof.
  unfold groupFiles.
  induction input as [| file input IH] using rev_ind; [constructor |].
  rewrite fold_left_app. simpl.
  apply groupFile_filesOf; [apply (grouped_inv input) | exact IH |].
  intros f Hf E. apply grouped_keys. eauto.
Qed.

Lemma sorted_keys (input : list ChangedFile) :
  sort beforeCategory (List.map fst (groupFiles input))
  = filter (present input) categoryOrder.
Proof.
  rewrite sort_categories.
  - apply filter_ext. intro c. apply eq_iff_eq_true.
    unfold present. rewrite !existsb_exists. split.
    + intros (k & Hk & E). apply grouped_keys in Hk.
      destruct Hk as (f & Hf & <-). now exists f.
    + intros (f & Hf & E). exists (categorizeChange f). split; [| assumption].
      apply grouped_keys. now exists f.
  - apply (grouped_inv input).
  - intros k Hk. apply grouped_keys in Hk. destruct Hk as (f & _ & <-).
    apply categorizeChange_known.
Qed.

Lemma categorizeChanges_eq (input : list ChangedFile) :
  categorizeChanges input
  = List.map (fun c => entryOf c (filesOf input c))
             (filter (present input) categoryOrder).
Proof.
  unfold categorizeChanges. cbv zeta.
  assert (E : List.map (fun '(category, categoryFiles) =>
                 {| category := category;
                    description := generateCategoryDescription category categoryFiles;
                    files := List.map path categoryFiles |}) (groupFiles input)
              = List.map (fun c => entryOf c (filesOf input c))
                         (List.map fst (groupFiles input))).
  { rewrite map_map. apply map_ext_in. intros [k v] He.
    pose proof (groupFiles_filesOf input) as F. rewrite Forall_forall in F.
    specialize (F _ He). simpl in F. now subst v. }
  rewrite E.
  change byImportance
    with (fun a b : CategorizedChange => beforeCategory (category a) (category b)).
  rewrite <- sorted_keys.
  symmetry. apply (sort_map (fun c => entryOf c (filesOf input c)) byImportance).
Qed.

(** X1: [categorizeChanges] in closed form. Its result lists, in the
    fixed category order, the categories some input file falls in; the entry
    of a category holds the description generated from the files of that
    category and their paths, both in input order. *)
Theorem categorizeChanges_closed_form (input : list ChangedFile) :
  categorizeChanges input
  = List.map (fun c => entryOf c (filesOf input c))
             (filter (present input) categoryOrder).
Proof. exact (categorizeChanges_eq input). Qed.

Lemma categoryOrder_NoDup : NoDup categoryOrder.
Proof.
  unfold categoryOrder.
  repeat (constructor; [simpl; intuition discriminate |]). constructor.
Qed.

Lemma present_filesOf (input : list ChangedFile) (c : ChangeCategory) :
  present input c = true -> filesOf input c <> [].
Proof.
  unfold present, filesOf. intros H E. apply existsb_exists in H.
  destruct H as (f & Hf & Hc).
  assert (In f (filter (fun f => str_eqb (categorizeChange f) c) input))
    by (apply filter_In; auto).
  rewrite E in H. contradiction.
Qed.

(** X2: the result of [categorizeChanges] names no category twice, has
    at most seven entries, has no entry without files, and is empty exactly
    when the input is. *)
Theorem categorizeChanges_shape (input : list ChangedFile) :
  NoDup (List.map category (categorizeChanges input))
  /\ (List.length (categorizeChanges input) <= 7)%nat
  /\ (forall c, In c (categorizeChanges input) -> files c <> [])
  /\ (categorizeChanges input = [] <-> input = []).
Proof.
  rewrite categorizeChanges_eq. split; [| split; [| split]].
  - rewrite map_map. rewrite (map_ext _ (fun c => c)) by reflexivity.
    rewrite map_id. apply NoDup_filter, categoryOrder_NoDup.
  - rewrite length_map.
    apply (Nat.le_trans _ _ _ (filter_length_le _ categoryOrder)). reflexivity.
  - intros c Hc. apply in_map_iff in Hc. destruct Hc as (k & <- & Hk).
    apply filter_In in Hk. destruct Hk as [_ Hk]. simpl.
    intro E. apply map_eq_nil in E. exact (present_filesOf _ _ Hk E).
  - split; [| intros ->; reflexivity].
    destruct input as [| f input]; [reflexivity |]. intro E. exfalso.
    apply map_eq_nil in E.
    assert (H : In (categorizeChange f)
                   (filter (present (f :: input)) categoryOrder)).
    { apply filter_In. split; [apply categorizeChange_known |].
      unfold present. simpl. now rewrite str_eqb_refl. }
    rewrite E in H. contradiction.
Qed.







(* ================================================================== *)
(** * The ranking and its limit *)
(* ================================================================== *)

Lemma identifyKeyFiles_slice (files : list ChangedFile) (limit : Z) :
  identifyKeyFiles files (Some limit) = slice0 (rankedPaths files) limit.
Proof.
  unfold identifyKeyFiles, rankedPaths, slice0.
  now rewrite firstn_map, length_map.
Qed.

Lemma rankedPaths_perm (files : list ChangedFile) :
  Permutation (rankedPaths files) (List.map path files).
Proof.
  unfold rankedPaths, rankedFiles.
  rewrite (Permutation_map _ (sort_perm byScore _)). now rewrite map_map.
Qed.

Lemma rankedPaths_length (files : list ChangedFile) :
  List.length (rankedPaths files) = List.length files.
Proof.
  rewrite (Permutation_length (rankedPaths_perm files)). apply length_map.
Qed.

Lemma slice0_all (A : Type) (a : list A) (e : Z) :
  (Z.of_nat (List.length a) <= e)%Z -> slice0 a e = a.
Proof.
  intro H. unfold slice0. destruct (Z.ltb_spec e 0); [lia |].
  rewrite Z.min_r by lia. rewrite Nat2Z.id. apply firstn_all.
Qed.

(** X4: [identifyKeyFiles] at the edges of [limit]. A limit of at
    least the number of files, and the default limit for at most five files,
    return every path; a negative limit drops that many paths from the end of
    the ranking instead of returning none; a limit of zero, or one below minus
    the number of files, returns nothing. *)
Theorem identifyKeyFiles_limits (files : list ChangedFile) (limit : Z) :
  let n := Z.of_nat (List.length files) in
  ((n <= limit)%Z ->
     Permutation (identifyKeyFiles files (Some limit)) (List.map path files))
  /\ ((n <= 5)%Z ->
        Permutation (identifyKeyFiles files None) (List.map path files))
  /\ ((limit < 0)%Z ->
        Z.of_nat (List.length (identifyKeyFiles files (Some limit)))
        = Z.max (n + limit) 0)
  /\ ((limit = 0 \/ limit <= - n)%Z -> identifyKeyFiles files (Some limit) = []).
Proof.
  intro n.
  assert (L : Z.of_nat (List.length (rankedPaths files)) = n)
    by (now rewrite rankedPaths_length).
  split; [| split; [| split]].
  - intro H. rewrite identifyKeyFiles_slice, slice0_all by lia.
    apply rankedPaths_perm.
  - intro H. change (identifyKeyFiles files None) with (identifyKeyFiles files (Some 5%Z)).
    rewrite identifyKeyFiles_slice, slice0_all by lia.
    apply rankedPaths_perm.
  - intro H. rewrite identifyKeyFiles_slice. unfold slice0.
    destruct (Z.ltb_spec limit 0); [| lia].
    rewrite length_firstn, L. lia.
  - intro H. rewrite identifyKeyFiles_slice. unfold slice0. rewrite L.
    destruct (Z.ltb_spec limit 0).
    + destruct H as [-> | H]; [lia |].
      now replace (Z.to_nat (Z.max (n + limit) 0)) with 0%nat by lia.
    + destruct H as [-> | H].
      * destruct (Z.min 0 n) eqn:E; try reflexivity; lia.
      * now replace (Z.to_nat (Z.min limit n)) with 0%nat by lia.
Qed.

Lemma identifyKeyFiles_limits_witness :
  Z.of_nat (List.length (identifyKeyFiles [readme; src_x; a_added] (Some (-2)%Z)))
  = 1%Z.
Proof.
  apply (proj1 (proj2 (proj2 (identifyKeyFiles_limits [readme; src_x; a_added] (-2))))).
  reflexivity.
Defined.

(** X5: the result of [identifyKeyFiles] is a prefix of one ranking of
    all the files, whatever the limit; so the result for a limit is the
    start of the result for any larger limit. *)
Theorem identifyKeyFiles_prefix (files : list ChangedFile) (limit larger : Z) :
  (exists k, identifyKeyFiles files (Some limit) = firstn k (rankedPaths files))
  /\ ((0 <= limit <= larger)%Z ->
      identifyKeyFiles files (Some limit)
      = firstn (Z.to_nat limit) (identifyKeyFiles files (Some larger))).
Proof.
  rewrite !identifyKeyFiles_slice. split; [unfold slice0; eauto |].
  intro H. unfold slice0.
  destruct (Z.ltb_spec limit 0); [lia |]. destruct (Z.ltb_spec larger 0); [lia |].
  rewrite firstn_firstn. f_equal.
  set (len := List.length (rankedPaths files)). lia.
Qed.

Lemma identifyKeyFiles_prefix_witness :
  identifyKeyFiles [readme; src_x; a_added] (Some 1%Z)
  = firstn 1 (identifyKeyFiles [readme; src_x; a_added] (Some 2%Z)).
Proof.
  apply (proj2 (identifyKeyFiles_prefix [readme; src_x; a_added] 1 2)). lia.
Defined.

Section Scores.
Import NumFacts.
Local Open Scope float_scope.

Lemma nonneg_leb (x : float) : Num.nonneg x -> (0 <=? x) = true.
Proof.
  unfold Num.nonneg. rewrite leb_spec.
  change (Prim2SF 0) with (S754_zero false).
  destruct (Prim2SF x) as [[] | [] | | [] m e]; simpl; tauto.
Qed.

Lemma nonneg_eqb (x : float) : Num.nonneg x -> (x =? x) = true.
Proof. intro H. now apply (eqb_key _ _ H H). Qed.

(** X6: the score of a file is a number, never NaN, and is not
    negative; on scores the comparator [b.score - a.score] of the ranking
    puts [a] before [b] exactly when the score of [b] is smaller; a file
    without added or removed lines scores zero whatever its path and change
    type. *)
Theorem fileScore_is_ordered (a b : ChangedFile) :
  (0 <=? fileScore a) = true
  /\ (fileScore a =? fileScore a) = true
  /\ byScore (a, fileScore a) (b, fileScore b) = (fileScore b <? fileScore a)
  /\ (linesAdded a = 0%N -> linesRemoved a = 0%N -> fileScore a = 0).
Proof.
  pose proof (fileScore_nonneg a) as Ha. pose proof (fileScore_nonneg b) as Hb.
  split; [now apply nonneg_leb |]. split; [now apply nonneg_eqb |].
  split; [now apply byScore_ltb |].
  intros E1 E2. unfold fileScore. rewrite E1, E2. cbv zeta.
  destruct (test sourceFilePattern _), (str_eqb (changeType a) _),
    (test testFilePattern _), (isCategory _ (lit "configuration")),
    (isCategory _ (lit "documentation")); reflexivity.
Qed.

Lemma fileScore_is_ordered_witness :
  fileScore (mkFile "src/empty.ts" "added" 0 0) = 0.
Proof.
  apply (fileScore_is_ordered (mkFile "src/empty.ts" "added" 0 0) readme);
    reflexivity.
Defined.

End Scores.

(* ================================================================== *)
(** * The assembled summary *)
(* ================================================================== *)

Lemma concat_length_le (A : Type) (l : list (list A)) :
  (forall x, In x l -> x <> []) ->
  (List.length l <= List.length (List.concat l))%nat.
Proof.
  induction l as [| x l IH]; simpl; [lia |]. intro H.
  rewrite length_app.
  assert (List.length l <= List.length (List.concat l))%nat by (apply IH; auto).
  assert (x <> []) by (apply H; auto).
  destruct x; [congruence | simpl; lia].
Qed.

Lemma categorizeChanges_files (input : list ChangedFile) (c : CategorizedChange) :
  In c (categorizeChanges input) -> files c <> [].
Proof.
  rewrite categorizeChanges_eq. intro Hc.
  apply in_map_iff in Hc. destruct Hc as (k & <- & Hk).
  apply filter_In in Hk. destruct Hk as [_ Hk]. simpl.
  intro E. apply map_eq_nil in E. exact (present_filesOf _ _ Hk E).
Qed.

(** X12: the parts of a diff summary agree with one another. The paths
    of the categorized changes are those of [filesChanged], each as often;
    there are no more categories than files; the key files are among
    [filesChanged] and number five, or all of them when there are fewer; the
    overview ends with the lower-cased inferred intent and a full stop. *)
Theorem generateDiffSummary_consistent (toLowerCase : str -> str) (diff : GitDiff.t) :
  let summary := generateDiffSummary toLowerCase diff in
  let all := DiffSummary.filesChanged summary in
  Permutation (List.concat (List.map files (DiffSummary.changes summary))) all
  /\ (List.length (DiffSummary.changes summary) <= List.length all)%nat
  /\ (forall p, In p (DiffSummary.keyFiles summary) -> In p all)
  /\ List.length (DiffSummary.keyFiles summary) = Nat.min 5 (List.length all)
  /\ (exists opening,
        DiffSummary.overview summary
        = opening ++ toLowerCase (DiffSummary.inferredIntent summary) ++ lit ".").
Proof.
  cbn zeta. cbn [generateDiffSummary DiffSummary.changes DiffSummary.filesChanged
                 DiffSummary.keyFiles DiffSummary.overview DiffSummary.inferredIntent].
  set (input := GitDiff.files diff).
  assert (K : identifyKeyFiles input None = slice0 (rankedPaths input) 5)
    by exact (identifyKeyFiles_slice input 5).
  split; [apply categorizeChanges_paths |]. split; [| split; [| split]].
  - rewrite <- (Permutation_length (categorizeChanges_paths input)).
    rewrite <- (length_map files (categorizeChanges input)).
    apply concat_length_le. intros x Hx.
    apply in_map_iff in Hx. destruct Hx as (c & <- & Hc).
    exact (categorizeChanges_files _ _ Hc).
  - intros p Hp. rewrite K in Hp. unfold slice0 in Hp. simpl in Hp.
    apply (Permutation_in _ (rankedPaths_perm input)).
    exact (In_firstn _ _ _ Hp).
  - rewrite K. apply Nat2Z.inj. rewrite slice0_length by lia.
    rewrite length_map, rankedPaths_length. lia.
  - unfold generateOverview. fold input.
    match goal with
    | |- exists opening, ?a ++ ?b ++ ?c ++ ?d ++ ?e ++ ?f ++ ?g ++ ?tail = _ =>
        exists (a ++ b ++ c ++ d ++ e ++ f ++ g)
    end.
    now rewrite <- !app_assoc.
Qed.

(* ================================================================== *)
(** * Vibe debt file names *)
(* ================================================================== *)

Lemma replaceAll_dash (s : str) :
  replaceAll isUnsafe (lit "-") s
  = List.map (fun c => if isUnsafe c then 45 else c) s.
Proof.
  unfold replaceAll. induction s as [| c s IH]; [reflexivity |].
  simpl. rewrite IH. now destruct (isUnsafe c).
Qed.

Lemma replaceAll_safe (s : str) (c : char) :
  In c (replaceAll isUnsafe (lit "-") s) -> isUnsafe c = false.
Proof.
  rewrite replaceAll_dash. intro H. apply in_map_iff in H.
  destruct H as (x & <- & _). destruct (isUnsafe x) eqn:E; [reflexivity | exact E].
Qed.

Lemma dropLeadingDashes_In (s : str) (c : char) :
  In c (dropLeadingDashes s) -> In c s.
Proof.
  induction s as [| d s IH]; simpl; [tauto |].
  destruct (isDash d); simpl; tauto.
Qed.

Lemma dropTrailingDashes_In (s : str) (c : char) :
  In c (dropTrailingDashes s) -> In c s.
Proof.
  induction s as [| d s IH]; simpl; [tauto |].
  destruct (dropTrailingDashes s) as [| k kept].
  - destruct (isDash d); simpl; tauto.
  - simpl in *. tauto.
Qed.

Lemma collapseDashes_In (s : str) (c : char) :
  In c (collapseDashes s) -> In c s.
Proof.
  induction s as [| d s IH]; simpl; [tauto |].
  destruct (isDash d && startsWithDash s); simpl; tauto.
Qed.

Lemma dropLeadingDashes_starts (s : str) :
  startsWithDash (dropLeadingDashes s) = false.
Proof.
  induction s as [| c s IH]; [reflexivity |].
  simpl. destruct (isDash c) eqn:E; [exact IH | simpl; exact E].
Qed.

Lemma dropTrailingDashes_starts (s : str) :
  startsWithDash s = false -> startsWithDash (dropTrailingDashes s) = false.
Proof.
  destruct s as [| c s]; [reflexivity |]. simpl. intro H.
  destruct (dropTrailingDashes s); [rewrite H |]; simpl; auto.
Qed.

Lemma dropTrailingDashes_ends (s : str) :
  endsWithDash (dropTrailingDashes s) = false.
Proof.
  induction s as [| c s IH]; [reflexivity |].
  simpl. destruct (dropTrailingDashes s) as [| k kept].
  - destruct (isDash c) eqn:E; simpl; auto.
  - exact IH.
Qed.

Lemma collapseDashes_starts (s : str) :
  startsWithDash (collapseDashes s) = startsWithDash s.
Proof.
  induction s as [| c s IH]; [reflexivity |].
  simpl. destruct (isDash c) eqn:E; simpl; [| exact E].
  destruct (startsWithDash s) eqn:S; simpl; [now rewrite IH | exact E].
Qed.

Lemma collapseDashes_nil (s : str) : collapseDashes s = [] -> s = [].
Proof.
  induction s as [| c s IH]; [reflexivity |].
  simpl. destruct (isDash c && startsWithDash s) eqn:E; [| discriminate].
  intro H. apply IH in H. subst. apply andb_true_iff in E. simpl in E.
  destruct E; discriminate.
Qed.

Lemma collapseDashes_ends (s : str) :
  endsWithDash (collapseDashes s) = endsWithDash s.
Proof.
  induction s as [| c s IH]; [reflexivity |].
  simpl collapseDashes. destruct (isDash c && startsWithDash s) eqn:E.
  - rewrite IH. apply andb_true_iff in E. destruct E as [_ E].
    destruct s; [discriminate | reflexivity].
  - destruct s as [| d s]; [reflexivity |].
    change (endsWithDash (c :: d :: s)) with (endsWithDash (d :: s)).
    rewrite <- IH.
    destruct (collapseDashes (d :: s)) eqn:C; [| reflexivity].
    apply collapseDashes_nil in C. discriminate.
Qed.

Lemma collapseDashes_noDouble (s : str) : noDoubleDash (collapseDashes s) = true.
Proof.
  induction s as [| c s IH]; [reflexivity |].
  simpl. destruct (isDash c && startsWithDash s) eqn:E; [exact IH |].
  simpl. now rewrite collapseDashes_starts, E, IH.
Qed.

Lemma sanitize_clean (branchName : str) : clean (sanitize branchName).
Proof.
  unfold sanitize. repeat split.
  - intros c H. apply collapseDashes_In, dropTrailingDashes_In,
      dropLeadingDashes_In in H. exact (replaceAll_safe _ _ H).
  - rewrite collapseDashes_starts.
    apply dropTrailingDashes_starts, dropLeadingDashes_starts.
  - rewrite collapseDashes_ends. apply dropTrailingDashes_ends.
  - apply collapseDashes_noDouble.
Qed.

Lemma dropLeadingDashes_id (s : str) :
  startsWithDash s = false -> dropLeadingDashes s = s.
Proof. destruct s as [| c s]; simpl; [reflexivity |]. now intros ->. Qed.

Lemma dropTrailingDashes_id (s : str) :
  endsWithDash s = false -> dropTrailingDashes s = s.
Proof.
  induction s as [| c s IH]; [reflexivity |].
  destruct s as [| d s].
  - simpl. now intros ->.
  - intro H. change (endsWithDash (c :: d :: s)) with (endsWithDash (d :: s)) in H.
    change (dropTrailingDashes (c :: d :: s))
      with (match dropTrailingDashes (d :: s) with
            | [] => if isDash c then [] else [c]
            | kept => c :: kept
            end).
    now rewrite (IH H).
Qed.

Lemma collapseDashes_id (s : str) : noDoubleDash s = true -> collapseDashes s = s.
Proof.
  induction s as [| c s IH]; [reflexivity |].
  simpl. intro H. apply andb_true_iff in H. destruct H as [H1 H2].
  apply negb_true_iff in H1. rewrite H1. now rewrite IH.
Qed.

Lemma sanitize_id (s : str) : clean s -> sanitize s = s.
Proof.
  intros (Safe & S & E & D). unfold sanitize.
  rewrite (replaceAll_id _ _ _ Safe).
  now rewrite dropLeadingDashes_id, dropTrailingDashes_id, collapseDashes_id.
Qed.

Lemma hd_split_In (delim : char -> bool) (s : str) (c : char) :
  In c (List.hd [] (split delim s)) -> In c s /\ delim c = false.
Proof.
  induction s as [| d s IH]; simpl; [tauto |].
  destruct (delim d) eqn:E; simpl; [tauto |].
  destruct (split delim s) as [| seg rest]; simpl in *.
  - intros [<- | []]. tauto.
  - intros [<- | H]; [tauto |]. destruct (IH H). tauto.
Qed.

Lemma isUnsafe_separator (c : char) :
  isUnsafe c = false -> c <> 47 /\ c <> 92.
Proof.
  intro H. split; intros ->; discriminate.
Qed.

(** X13: the branch part of a vibe debt file name holds none of the
    characters the sanitizer replaces (slash, backslash, colon, star,
    question mark, double quote, angle brackets, bar), neither starts nor ends with a dash,
    and holds no two dashes in a row. *)
Theorem sanitized_branch_is_clean (branchName isoDate : str) :
  generateFilename branchName isoDate
  = sanitize branchName ++ lit "_"
      ++ List.hd [] (split (fun c => (c =? 84)%N) isoDate) ++ lit ".json"
  /\ (forall c, In c (sanitize branchName) -> isUnsafe c = false)
  /\ startsWithDash (sanitize branchName) = false
  /\ endsWithDash (sanitize branchName) = false
  /\ noDoubleDash (sanitize branchName) = true.
Proof.
  split; [reflexivity |]. exact (sanitize_clean branchName).
Qed.

(** X14: a branch name that is already clean is the branch part of its
    file name, unchanged. *)
Theorem clean_branch_is_kept (branchName isoDate : str) :
  clean branchName ->
  generateFilename branchName isoDate
  = branchName ++ lit "_"
      ++ List.hd [] (split (fun c => (c =? 84)%N) isoDate) ++ lit ".json".
Proof.
  intro H. unfold generateFilename. now rewrite (sanitize_id H).
Qed.

Lemma clean_branch_is_kept_witness :
  generateFilename (lit "fix-login") (lit "2024-01-15T10:30:00.000Z")
  = lit "fix-login_2024-01-15.json".
Proof.
  refine (eq_trans (@clean_branch_is_kept (lit "fix-login")
                      (lit "2024-01-15T10:30:00.000Z") _) _); [| reflexivity].
  unfold clean. repeat split.
  intros c H. simpl in H.
  repeat (destruct H as [<- | H]; [reflexivity |]). contradiction.
Defined.

(** X15: sanitizing is idempotent, so a branch and its sanitized name are
    stored under the same file name: file names do not tell branches apart. *)
Theorem generateFilename_collisions (branchName isoDate : str) :
  sanitize (sanitize branchName) = sanitize branchName
  /\ generateFilename (sanitize branchName) isoDate
     = generateFilename branchName isoDate
  /\ generateFilename (replaceAll isUnsafe (lit "-") branchName) isoDate
     = generateFilename branchName isoDate
  /\ exists a b : str,
       a <> b /\ forall date, generateFilename a date = generateFilename b date.
Proof.
  assert (I : sanitize (sanitize branchName) = sanitize branchName)
    by apply sanitize_id, sanitize_clean.
  split; [exact I |]. split; [| split].
  - unfold generateFilename. now rewrite I.
  - unfold generateFilename, sanitize at 1.
    rewrite (replaceAll_id isUnsafe (lit "-") (replaceAll isUnsafe (lit "-") branchName));
      [reflexivity |].
    intros c. apply replaceAll_safe.
  - exists (lit "feature/login"), (lit "feature-login").
    split; [discriminate | reflexivity].
Qed.

(** X16: the path of a vibe debt file is the project root (the current
    directory when none is given), the directory [VibeDebt] and the file
    name; whatever the branch is called, the file name holds no [/] or [\],
    so the file lies directly in that directory. *)
Theorem getVibeDebtPath_is_flat (branchName : str) (projectRoot : option str)
    (isoDate : str) :
  (forall c, In c isoDate -> c <> 47 /\ c <> 92) ->
  getVibeDebtPath branchName projectRoot isoDate
  = match projectRoot with Some r => r | None => lit "." end
      ++ lit "/VibeDebt/" ++ generateFilename branchName isoDate
  /\ forall c, In c (generateFilename branchName isoDate) -> c <> 47 /\ c <> 92.
Proof.
  intro Date. split.
  - unfold getVibeDebtPath, getVibeDebtDir. now rewrite <- !app_assoc.
  - unfold generateFilename. intros c H.
    apply in_app_or in H. destruct H as [H | H].
    { apply isUnsafe_separator. exact (proj1 (sanitize_clean branchName) c H). }
    apply in_app_or in H. destruct H as [H | H].
    { simpl in H. destruct H as [<- | []]. split; discriminate. }
    apply in_app_or in H. destruct H as [H | H].
    { apply hd_split_In in H. apply Date, H. }
    simpl in H.
    repeat (destruct H as [<- | H]; [split; discriminate |]). contradiction.
Qed.

Lemma getVibeDebtPath_is_flat_witness :
  getVibeDebtPath (lit "feature/login") None (lit "2024-01-15T10:30:00.000Z")
  = lit "./VibeDebt/feature-login_2024-01-15.json".
Proof.
  refine (eq_trans (proj1 (@getVibeDebtPath_is_flat (lit "feature/login") None
                             (lit "2024-01-15T10:30:00.000Z") _)) _);
    [| reflexivity].
  intros c H. simpl in H.
  repeat (destruct H as [<- | H]; [split; discriminate |]). contradiction.
Defined.

(* ================================================================== *)
(** * Scenarios *)
(* ================================================================== *)

Example intent_of_feature_branch :
  inferIntent (mkDiff "feature/login-flow" [] [] 0 0)
  = lit "add new functionality: login flow".
Proof. reflexivity. Qed.

Example intent_without_branch_or_commits :
  inferIntent (mkDiff "main" [] [readme; src_x] 45 1)
  = lit "Add new functionality to the codebase".
Proof. reflexivity. Qed.

Example key_files_of_scenario :
  identifyKeyFiles [readme; src_x] None = [lit "src/x.ts"; lit "README.md"]
  /\ List.map snd (rankedFiles [readme; src_x]) = [78; 1.7999999999999998]%float.
Proof. split; reflexivity. Qed.

Example overview_of_scenario :
  generateOverview toLowerCaseASCII (mkDiff "main" [] [readme; src_x] 45 15)
  = lit "A moderate change across 2 files to add new functionality to the codebase.".
Proof. reflexivity. Qed.

Example configuration_paths :
  List.map categorizeFileByPath
    [lit "tsconfig.build.json"; lit "app/.env.local"; lit "app/.envx";
     lit "deploy/Dockerfile"; lit "vite.config.test.ts"; lit "docs/guide.txt"]
  = [Some (lit "configuration"); Some (lit "configuration"); None;
     Some (lit "configuration"); Some (lit "configuration");
     Some (lit "documentation")].
Proof. reflexivity. Qed.
